(** * PyOS-Agent: policy gate, script validator, approval gate and
      self-healing executor

    A shallow embedding of [pyos/core/security.py] and
    [pyos/core/orchestrator.py], with the properties the design document
    states about them.

    Conventions.
    - A Python [str] is a [string]: the sequence of its code points, for
      the code points U+0000..U+00FF an [ascii] can hold.  Case mapping
      and white space follow Python on that range.
    - A call that can raise returns a [result]: [Ok v] or [Raise e].
    - Python sets are [gset], dictionaries are [gmap], lists are lists.
      A [gmap] keeps no insertion order; the one place where the code
      reads a dictionary in order (the description of a retried call) is
      kept as the call it describes, not as its text.
    - Message texts are written without their accents; wall-clock times
      are left out. *)

From Stdlib Require Import Ascii String List Bool Arith Lia DecimalString.
From stdpp Require Import base gmap strings list.
Import ListNotations.

Set Default Proof Using "Type".
Set Warnings "-register-all".

(** ** Exceptions and results *)

Inductive exn : Type :=
| IndexError (msg : string)
| ValueError (msg : string)
| SecurityViolationError (msg : string)
| SyntaxError (msg : string)
| AttributeError (msg : string)
| TypeError (msg : string)
| RecursionError
| EOFError
| Exception (msg : string).

Inductive result (A : Type) : Type :=
| Ok (v : A)
| Raise (e : exn).
Arguments Ok {A} v.
Arguments Raise {A} e.

Definition rbind {A B} (m : result A) (k : A → result B) : result B :=
  match m with
  | Ok v => k v
  | Raise e => Raise e
  end.

(** ** Python string operations *)

Module PyStr.

(** [str.isspace] on one character: the code points below 256 that
    CPython's [Py_UNICODE_ISSPACE] accepts. *)
Definition is_space (c : ascii) : bool :=
  let n := nat_of_ascii c in
  ((9 <=? n) && (n <=? 13)) || ((28 <=? n) && (n <=? 32))
  || (n =? 133) || (n =? 160).

(** [str.lower] on one character: A-Z, and the Latin-1 capitals
    U+00C0..U+00DE except the multiplication sign U+00D7. *)
Definition lower_char (c : ascii) : ascii :=
  let n := nat_of_ascii c in
  if ((65 <=? n) && (n <=? 90))
     || ((192 <=? n) && (n <=? 222) && negb (n =? 215))
  then ascii_of_nat (n + 32) else c.

Fixpoint lower (s : string) : string :=
  match s with
  | EmptyString => EmptyString
  | String c s' => String (lower_char c) (lower s')
  end.

Fixpoint lstrip (s : string) : string :=
  match s with
  | EmptyString => EmptyString
  | String c s' => if is_space c then lstrip s' else s
  end.

Fixpoint rstrip (s : string) : string :=
  match s with
  | EmptyString => EmptyString
  | String c s' =>
      match rstrip s' with
      | EmptyString => if is_space c then EmptyString else String c EmptyString
      | r => String c r
      end
  end.

(** [s.strip()] *)
Definition strip (s : string) : string := rstrip (lstrip s).

(** [s.split()] with no separator: the maximal runs of characters that
    are not white space.  [cur] is the run being read. *)
Fixpoint split_go (cur : string) (s : string) : list string :=
  match s with
  | EmptyString =>
      match cur with EmptyString => [] | _ => [cur] end
  | String c s' =>
      if is_space c then
        match cur with
        | EmptyString => split_go EmptyString s'
        | _ => cur :: split_go EmptyString s'
        end
      else split_go (cur +:+ String c EmptyString) s'
  end.

Definition split (s : string) : list string := split_go EmptyString s.

(** [s.startswith(p)] *)
Definition startswith (s p : string) : bool := String.prefix p s.

(** [needle in hay] *)
Fixpoint contains (needle hay : string) : bool :=
  String.prefix needle hay
  || match hay with
     | EmptyString => false
     | String _ hay' => contains needle hay'
     end.

Fixpoint drop (n : nat) (s : string) : string :=
  match n, s with
  | S n', String _ s' => drop n' s'
  | _, _ => s
  end.

(** [s.replace(old, new, 1)]: the first occurrence only. *)
Fixpoint replace_first (old new s : string) : string :=
  if String.prefix old s then new +:+ drop (String.length old) s
  else match s with
       | EmptyString => EmptyString
       | String c s' => String c (replace_first old new s')
       end.

(** [s.isspace()]: not empty, and white space only. *)
Fixpoint all_space (s : string) : bool :=
  match s with
  | EmptyString => true
  | String c s' => is_space c && all_space s'
  end.

Definition isspace (s : string) : bool :=
  match s with EmptyString => false | _ => all_space s end.

(** [s.split(sep)] for a separator of one character; empty pieces are
    kept. *)
Fixpoint split_on_go (sep : ascii) (cur : string) (s : string) : list string :=
  match s with
  | EmptyString => [cur]
  | String c s' =>
      if Ascii.eqb c sep then cur :: split_on_go sep EmptyString s'
      else split_on_go sep (cur +:+ String c EmptyString) s'
  end.

Definition split_on (sep : ascii) (s : string) : list string :=
  split_on_go sep EmptyString s.

(** [bool(s)]: a string is true when it is not empty. *)
Definition truthy (s : string) : bool :=
  match s with EmptyString => false | _ => true end.

End PyStr.

(** ** The regular expressions of the blocked-pattern catalog *)

Module Re.

(** One-character matchers. *)
Inductive cls : Type :=
| Lit (c : ascii)      (* the character itself *)
| Space                (* \s *)
| Dot.                 (* .  : any character but a newline *)

(** What [re] does on a compiled pattern without flags. *)
Definition exact (k : cls) (c : ascii) : bool :=
  match k with
  | Lit d => Ascii.eqb d c
  | Space => PyStr.is_space c
  | Dot => negb (Ascii.eqb c "010"%char)
  end.

(** Matching that ignores case: a literal accepts every character with
    the same lower-case form. *)
Definition nocase (k : cls) (c : ascii) : bool :=
  match k with
  | Lit d => Ascii.eqb (PyStr.lower_char d) (PyStr.lower_char c)
  | _ => exact k c
  end.

Inductive regex : Type :=
| Never
| Eps
| Atom (k : cls)
| Cat (r1 r2 : regex)
| Alt (r1 r2 : regex)
| Star (r : regex).

(** [r+] *)
Definition Plus (r : regex) : regex := Cat r (Star r).

(** *** [re.compile] for the syntax the catalog uses: literal characters,
    [\s], [.], and the postfix operators [+] and [*] on one atom. *)

Inductive token : Type :=
| TAtom (k : cls)
| TPlus
| TStar.

Definition is_meta (c : ascii) : bool :=
  existsb (Ascii.eqb c)
    ["("; ")"; "["; "]"; "{"; "}"; "|"; "?"; "^"; "$"]%char.

Fixpoint tokenize (s : string) : option (list token) :=
  match s with
  | EmptyString => Some []
  | String "\" (String "s" s') => cons (TAtom Space) <$> tokenize s'
  | String "\" _ => None
  | String "." s' => cons (TAtom Dot) <$> tokenize s'
  | String "+" s' => cons TPlus <$> tokenize s'
  | String "*" s' => cons TStar <$> tokenize s'
  | String c s' =>
      if is_meta c then None else cons (TAtom (Lit c)) <$> tokenize s'
  end.

Fixpoint build (ts : list token) : option regex :=
  match ts with
  | [] => Some Eps
  | TAtom k :: TPlus :: ts' => Cat (Plus (Atom k)) <$> build ts'
  | TAtom k :: TStar :: ts' => Cat (Star (Atom k)) <$> build ts'
  | TAtom k :: ts' => Cat (Atom k) <$> build ts'
  | _ => None
  end.

Definition compile (pattern : string) : option regex :=
  tokenize pattern ≫= build.

Section Matching.

(** How one atom reads one character: [exact] or [nocase]. *)
Variable acc : cls → ascii → bool.

(** *** Matching, by derivatives *)

Fixpoint nullable (r : regex) : bool :=
  match r with
  | Never => false
  | Eps => true
  | Atom _ => false
  | Cat r1 r2 => nullable r1 && nullable r2
  | Alt r1 r2 => nullable r1 || nullable r2
  | Star _ => true
  end.

Fixpoint deriv (c : ascii) (r : regex) : regex :=
  match r with
  | Never => Never
  | Eps => Never
  | Atom k => if acc k c then Eps else Never
  | Cat r1 r2 =>
      if nullable r1 then Alt (Cat (deriv c r1) r2) (deriv c r2)
      else Cat (deriv c r1) r2
  | Alt r1 r2 => Alt (deriv c r1) (deriv c r2)
  | Star r1 => Cat (deriv c r1) (Star r1)
  end.

(** [pattern.match(s)]: some prefix of [s] is in the language. *)
Fixpoint match_here (r : regex) (s : string) : bool :=
  nullable r
  || match s with
     | EmptyString => false
     | String c s' => match_here (deriv c r) s'
     end.

(** [pattern.search(s)]: some substring of [s] is in the language. *)
Fixpoint search (r : regex) (s : string) : bool :=
  match_here r s
  || match s with
     | EmptyString => false
     | String _ s' => search r s'
     end.

(** *** The language of a pattern *)

Inductive matches : regex → string → Prop :=
| m_eps : matches Eps EmptyString
| m_atom k c : acc k c = true → matches (Atom k) (String c EmptyString)
| m_cat r1 r2 s1 s2 :
    matches r1 s1 → matches r2 s2 → matches (Cat r1 r2) (s1 +:+ s2)
| m_alt_l r1 r2 s : matches r1 s → matches (Alt r1 r2) s
| m_alt_r r1 r2 s : matches r2 s → matches (Alt r1 r2) s
| m_star_nil r : matches (Star r) EmptyString
| m_star_cons r s1 s2 :
    matches r s1 → matches (Star r) s2 → matches (Star r) (s1 +:+ s2).

(** The pattern is found somewhere in [s]. *)
Definition found (r : regex) (s : string) : Prop :=
  ∃ s0 s1 s2, s = s0 +:+ s1 +:+ s2 ∧ matches r s1.

End Matching.

(** Every literal of the pattern is its own lower-case form. *)
Fixpoint lowercase (r : regex) : bool :=
  match r with
  | Atom (Lit d) => Ascii.eqb (PyStr.lower_char d) d
  | Cat r1 r2 | Alt r1 r2 => lowercase r1 && lowercase r2
  | Star r1 => lowercase r1
  | _ => true
  end.

(** Every string of the language has a character that is not white
    space (a sufficient syntactic test). *)
Fixpoint needs_nonspace (r : regex) : bool :=
  match r with
  | Never => true
  | Atom (Lit d) => negb (PyStr.is_space d)
  | Cat r1 r2 => needs_nonspace r1 || needs_nonspace r2
  | Alt r1 r2 => needs_nonspace r1 && needs_nonspace r2
  | _ => false
  end.

End Re.

(** ** Paths: [pathlib.Path] on POSIX *)

Module Fs.

(** A resolved path, as [Path.parts]: the anchor "/" first, then the
    names, so [/tmp/x] is ["/"; "tmp"; "x"]. *)
Abbreviation path := (list string).

(** [p.relative_to(other)]: the parts of [p] after those of [other], or
    [ValueError] when [other] is not [p] or one of its parents. *)
Fixpoint relative_to (p other : path) {struct other} : result path :=
  match other, p with
  | [], _ => Ok p
  | a :: other', b :: p' =>
      if String.eqb a b then relative_to p' other'
      else Raise (ValueError "not in the subpath")
  | _ :: _, [] => Raise (ValueError "not in the subpath")
  end.

(** Reading the segments of a path from a directory; [stack] holds the
    names of that directory, the innermost first.  [".."] at the root
    stays at the root. *)
Fixpoint walk (stack : list string) (segs : list string) : list string :=
  match segs with
  | [] => stack
  | seg :: rest =>
      if String.eqb seg "" || String.eqb seg "." then walk stack rest
      else if String.eqb seg ".." then walk (tail stack) rest
      else walk (seg :: stack) rest
  end.

Definition is_absolute (s : string) : bool := String.prefix "/" s.

(** [Path(s).resolve()] on a file system that has no symbolic links, for
    a process whose working directory is [/cwd...]; a NUL character is
    refused. *)
Definition resolve (cwd : list string) (s : string) : result path :=
  if PyStr.contains (String "000"%char EmptyString) s then
    Raise (ValueError "embedded null byte")
  else
    let start := if is_absolute s then [] else rev cwd in
    Ok ("/" :: rev (walk start (PyStr.split_on "/"%char s))).

End Fs.

(** ** [SecurityShield] *)

Module Security.

Record SecurityShield : Type := mkShield {
  allowed_commands : gset string;
  allowed_paths : gset (list string);
  blocked_patterns : list Re.regex;
}.

Definition blocked_sources : list string :=
  ["rm\s+-rf\s+/"; "mkfs"; "dd\s+if=.*of=/dev"].

Definition default_blocked_patterns : list Re.regex :=
  Eval vm_compute in omap Re.compile blocked_sources.

(** [SecurityShield.__init__] *)
Definition init : SecurityShield :=
  {| allowed_commands := ∅;
     allowed_paths := ∅;
     blocked_patterns := default_blocked_patterns |}.

(** [add_allowed_command] *)
Definition add_allowed_command (s : SecurityShield) (command : string)
  : result SecurityShield :=
  if negb (PyStr.truthy command) then
    Raise (ValueError "Comando deve ser uma string nao vazia")
  else
    let normalized := PyStr.lower (PyStr.strip command) in
    Ok {| allowed_commands := {[ normalized ]} ∪ allowed_commands s;
          allowed_paths := allowed_paths s;
          blocked_patterns := blocked_patterns s |}.

(** [is_command_allowed] *)
Definition is_command_allowed (s : SecurityShield) (command : string)
  : result bool :=
  if negb (PyStr.truthy command) then Ok false
  else
    match PyStr.split (PyStr.strip command) with
    | [] => Raise (IndexError "list index out of range")
    | tok :: _ =>
        let cmd_name := PyStr.lower tok in
        if existsb
             (fun pattern => Re.search Re.exact pattern (PyStr.lower command))
             (blocked_patterns s)
        then Ok false
        else Ok (bool_decide (cmd_name ∈ allowed_commands s))
    end.

(** [validate_command] *)
Definition validate_command (s : SecurityShield) (command : string)
  : result unit :=
  rbind (is_command_allowed s command) (fun ok =>
    if ok then Ok tt
    else Raise (SecurityViolationError ("Comando nao permitido: " +:+ command))).

Section FileSystem.

(** The file system the shield runs on: [Path(p).resolve()] and
    [Path.exists]. *)
Variable resolve : string → result Fs.path.
Variable exists_ : Fs.path → bool.

(** [add_allowed_path] *)
Definition add_allowed_path (s : SecurityShield) (path : string)
  : result SecurityShield :=
  rbind (resolve path) (fun p =>
    if negb (exists_ p) then Raise (ValueError "Caminho nao existe")
    else
      Ok {| allowed_commands := allowed_commands s;
            allowed_paths := {[ p ]} ∪ allowed_paths s;
            blocked_patterns := blocked_patterns s |}).

(** The loop of [is_path_allowed] over the allowed paths. *)
Fixpoint under_some (p : Fs.path) (roots : list Fs.path) : bool :=
  match roots with
  | [] => false
  | allowed_path :: roots' =>
      match Fs.relative_to p allowed_path with
      | Ok _ => true
      | Raise _ => under_some p roots'
      end
  end.

(** [is_path_allowed] *)
Definition is_path_allowed (s : SecurityShield) (path : string)
  : result bool :=
  rbind (resolve path) (fun p =>
    Ok (under_some p (elements (allowed_paths s)))).

(** [validate_path] *)
Definition validate_path (s : SecurityShield) (path : string)
  : result unit :=
  rbind (is_path_allowed s path) (fun ok =>
    if ok then Ok tt
    else Raise (SecurityViolationError ("Caminho nao permitido: " +:+ path))).

End FileSystem.

End Security.

(** ** [PythonASTValidator] *)

Module Validator.

Import Security.

(** The part of [ast] the validator looks at.  Expression-context nodes
    ([Load], [Store]) trigger no check and are left out. *)
Inductive constant : Type :=
| CStr (s : string)
| COther.

Inductive node : Type :=
| Import (names : list string)
| ImportFrom (module : option string) (names : list string)
| Alias (name : string)
| Call (func : node) (args : list node) (keywords : list node)
| Name (id : string)
| Attribute (value : node) (attr : string)
| Constant (value : constant)
| Other (children : list node).

(** [ast.iter_child_nodes] *)
Definition iter_child_nodes (n : node) : list node :=
  match n with
  | Import names | ImportFrom _ names => Alias <$> names
  | Call func args keywords => func :: args ++ keywords
  | Attribute value _ => [value]
  | Other children => children
  | Alias _ | Name _ | Constant _ => []
  end.

Fixpoint size (n : node) : nat :=
  match n with
  | Import names | ImportFrom _ names => S (length names)
  | Call func args keywords =>
      S (size func + list_sum (map size args) + list_sum (map size keywords))
  | Attribute value _ => S (size value)
  | Other children => S (list_sum (map size children))
  | Alias _ | Name _ | Constant _ => 1
  end.

(** [ast.walk]: breadth first, from a queue.  Each step takes one node
    off the queue, so the number of nodes bounds the steps. *)
Fixpoint walk_go (steps : nat) (todo : list node) : list node :=
  match steps, todo with
  | S steps', n :: todo' => n :: walk_go steps' (todo' ++ iter_child_nodes n)
  | _, _ => []
  end.

Definition walk (tree : node) : list node := walk_go (size tree) [tree].

Definition DANGEROUS_IMPORTS : gset string :=
  list_to_set
    ["os.system"; "os.popen"; "subprocess.call"; "subprocess.run";
     "subprocess.Popen"; "shutil.rmtree"; "shutil.copy"; "eval"; "exec";
     "compile"; "__import__"].

Definition DANGEROUS_BUILTINS : gset string :=
  list_to_set
    ["eval"; "exec"; "compile"; "open"; "__import__"; "globals"; "locals"].

Definition when (b : bool) (msg : string) : list string :=
  if b then [msg] else [].

(** [_check_import]: the violations one node adds. *)
Definition check_import (n : node) : list string :=
  match n with
  | Import names =>
      flat_map
        (fun name =>
           when (bool_decide (name ∈ DANGEROUS_IMPORTS))
             ("Dangerous import: " +:+ name))
        names
  | ImportFrom (Some full_name) names =>
      if PyStr.truthy full_name then
        flat_map
          (fun name =>
             let full_import := full_name +:+ "." +:+ name in
             when (bool_decide (full_import ∈ DANGEROUS_IMPORTS))
               ("Dangerous import: " +:+ full_import)
             ++ when (bool_decide
                        (name ∈ ["system"; "popen"; "call"; "Popen"]))
                  ("Dangerous import: " +:+ full_import))
          names
      else []
  | _ => []
  end.

(** [_check_function_call] *)
Definition check_function_call (n : node) : list string :=
  match n with
  | Call (Name id) _ _ =>
      when (bool_decide (id ∈ DANGEROUS_BUILTINS))
        ("Dangerous builtin call: " +:+ id +:+ "()")
  | Call (Attribute _ attr) _ _ =>
      when (bool_decide (attr ∈ ["__import__"; "__class__"; "__bases__"]))
        ("Dangerous attribute access: " +:+ attr)
  | _ => []
  end.

Record PythonASTValidator : Type := mkValidator {
  shield : option SecurityShield;
  violations : list string;
}.

Section Environment.

Variable resolve : string → result Fs.path.

(** [ast.parse] *)
Variable parse : string → result node.

(** [_check_builtin_call]; [is_path_allowed] may raise. *)
Definition check_builtin_call (sh : option SecurityShield) (n : node)
  : result (list string) :=
  match n with
  | Call (Name id) args _ =>
      if String.eqb id "open" then
        match sh, args with
        | Some shield, Constant (CStr filepath) :: _ =>
            rbind (is_path_allowed resolve shield filepath) (fun ok =>
              Ok (when (negb ok)
                    ("File access not allowed: " +:+ filepath)))
        | _, _ => Ok []
        end
      else Ok []
  | _ => Ok []
  end.

(** The body of the loop over [ast.walk(tree)], from the violations
    found so far. *)
Fixpoint check_nodes (sh : option SecurityShield) (found : list string)
    (nodes : list node) : result (list string) :=
  match nodes with
  | [] => Ok found
  | n :: nodes' =>
      let found := found ++ check_import n in
      let found := found ++ check_function_call n in
      rbind (check_builtin_call sh n) (fun more =>
        check_nodes sh (found ++ more) nodes')
  end.

(** [validate_python_code]: the pair it returns, and the validator
    afterwards ([self.violations] is replaced first, and is the list
    that is returned). *)
Definition validate_python_code (v : PythonASTValidator) (code : string)
  : result ((bool * list string) * PythonASTValidator) :=
  let keep violations := {| shield := shield v; violations := violations |} in
  match parse code with
  | Raise (SyntaxError e) =>
      let violations := [] ++ ["Syntax error: " +:+ e] in
      Ok ((false, violations), keep violations)
  | Raise e => Raise e
  | Ok tree =>
      rbind (check_nodes (shield v) [] (walk tree)) (fun violations =>
        let is_safe := Nat.eqb (length violations) 0 in
        Ok ((is_safe, violations), keep violations))
  end.

End Environment.

End Validator.

(** ** [ApprovalManager] *)

Module Approval.

Definition CRITICAL_KEYWORDS : gset string :=
  list_to_set
    ["delete"; "remove"; "rm"; "rmdir";
     "format"; "mkfs"; "dd";
     "sudo"; "chmod"; "chown";
     "network"; "firewall"; "iptables";
     "install"; "uninstall"; "apt"; "pip"; "brew";
     "reboot"; "shutdown"; "halt"].

(** An entry of [approval_history].  The time stamp is
    [... if "datetime" in dir() else None]; [dir()] lists the local names
    of the method, [datetime] is not one of them, so it is [None]. *)
Record approval_entry : Type := mkEntry {
  entry_action : string;
  entry_context : option string;
  entry_timestamp : option string;
  entry_approved : bool;
}.

Record ApprovalManager : Type := mkManager {
  auto_approve : bool;
  approved_actions : gset string;
  approval_history : list approval_entry;
}.

(** [ApprovalManager.__init__] *)
Definition init (auto : bool) : ApprovalManager :=
  {| auto_approve := auto; approved_actions := ∅; approval_history := [] |}.

(** [is_critical]: the loop over the keyword set, in whatever order the
    set yields them. *)
Definition is_critical (command : string) : bool :=
  let cmd_lower := PyStr.lower command in
  existsb (fun keyword => PyStr.contains keyword cmd_lower)
    (elements CRITICAL_KEYWORDS).

(** The approval channel: what the operator does at one prompt. *)
Inductive reply : Type :=
| Confirmed (answer : bool)   (* [Confirm.ask] returned *)
| Typed (line : string)       (* [Confirm.ask] failed, [input()] returned *)
| Closed.                     (* [Confirm.ask] failed, [input()] raised *)

(** The console: the replies to come, by prompt number, and the number
    of prompts shown so far. *)
Record console : Type := mkConsole {
  replies : nat → reply;
  prompts : nat;
}.

Definition ask (w : console) : result bool * console :=
  let w' := {| replies := replies w; prompts := S (prompts w) |} in
  match replies w (prompts w) with
  | Confirmed b => (Ok b, w')
  | Typed line =>
      let response := PyStr.lower line in
      (Ok (bool_decide (response ∈ ["y"; "yes"; "s"; "sim"])), w')
  | Closed => (Raise EOFError, w')
  end.

(** [require_approval].  [callback] is [None] or a function that may
    raise. *)
Definition require_approval (m : ApprovalManager) (w : console)
    (action : string) (context : option string)
    (callback : option (bool → result unit))
  : result bool * ApprovalManager * console :=
  if auto_approve m then (Ok true, m, w)
  else if bool_decide (action ∈ approved_actions m) then (Ok true, m, w)
  else
    match ask w with
    | (Raise e, w') => (Raise e, m, w')
    | (Ok approved, w') =>
        let m' :=
          if approved then
            {| auto_approve := auto_approve m;
               approved_actions := {[ action ]} ∪ approved_actions m;
               approval_history :=
                 approval_history m
                 ++ [{| entry_action := action;
                        entry_context := context;
                        entry_timestamp := None;
                        entry_approved := true |}] |}
          else m in
        match callback with
        | Some cb =>
            match cb approved with
            | Ok _ => (Ok approved, m', w')
            | Raise e => (Raise e, m', w')
            end
        | None => (Ok approved, m', w')
        end
    end.

(** A session: more calls of [require_approval], one after the other. *)
Record request : Type := mkRequest {
  req_action : string;
  req_context : option string;
  req_callback : option (bool → result unit);
}.

Fixpoint session (m : ApprovalManager) (w : console) (rs : list request)
  : ApprovalManager * console :=
  match rs with
  | [] => (m, w)
  | r :: rs' =>
      let '(_, m', w') :=
        require_approval m w (req_action r) (req_context r) (req_callback r) in
      session m' w' rs'
  end.

End Approval.

(** ** [PyOSOrchestrator] *)

Module Orchestrator.

Import Security.

(** [s[:n]] *)
Fixpoint take_str (n : nat) (s : string) : string :=
  match n, s with
  | S n', String c s' => String c (take_str n' s')
  | _, _ => EmptyString
  end.

(** A value of type [Any], as far as this code uses one: it is tested for
    truth, measured, sliced and shown. *)
Inductive value : Type :=
| Text (s : string)
    (* a [str] *)
| Object (type_name : string) (truth : bool) (shown : string).
    (* a value with no length and no slices, such as [None] or a number:
       the name of its type, its truth value and its [str] *)

(** [bool(v)] *)
Definition truth (v : value) : bool :=
  match v with
  | Text s => PyStr.truthy s
  | Object _ b _ => b
  end.

(** [len(v)] *)
Definition len (v : value) : result nat :=
  match v with
  | Text s => Ok (String.length s)
  | Object type_name _ _ =>
      Raise (TypeError ("object of type '" +:+ type_name +:+ "' has no len()"))
  end.

(** [v[:100]] *)
Definition slice100 (v : value) : result string :=
  match v with
  | Text s => Ok (take_str 100 s)
  | Object type_name _ _ =>
      Raise (TypeError ("'" +:+ type_name +:+ "' object is not subscriptable"))
  end.

(** A [ToolResult] object.  The dataclass of [base.py] declares
    [success], [output], [error], [execution_time_ms] and [metadata]; the
    last two are written and never read here and are left out.  It
    declares no [execution_time] and no [security_validated], which
    [execute_objective] reads: an object has them only if whoever made it
    set them, and the last two fields say whether it has (the time, a
    number, by its text). *)
Record ToolResult : Type := mkResult {
  success : bool;
  output : value;
  error : option string;
  attr_execution_time : option string;
  attr_security_validated : option bool;
}.

(** [ToolResult(success=..., output=..., error=...)], as every call of
    the constructor in [orchestrator.py] builds it: with neither
    attribute. *)
Definition plain_result (success : bool) (output : value)
    (error : option string) : ToolResult :=
  {| success := success; output := output; error := error;
     attr_execution_time := None; attr_security_validated := None |}.

Record ActionLog : Type := mkLog {
  iteration : nat;
  action_type : string;
  tool_name : option string;
  security_validated : bool;
  log_success : bool;
  details : list (string * string);
}.

(** The object has one of the two attributes. *)
Definition has_attribute (r : ToolResult) : Prop :=
  attr_execution_time r ≠ None ∨ attr_security_validated r ≠ None.

(** What one call of a tool function does, as far as a handler
    [except Exception] sees it.  (An exception outside the class
    [Exception] -- [KeyboardInterrupt], [SystemExit] -- is caught nowhere
    in [orchestrator.py]: it ends the run, and no outcome stands for
    it.) *)
Inductive outcome : Type :=
| Returns (r : ToolResult)       (* a [ToolResult] *)
| ReturnsValue (shown : string)  (* another value, [shown] is its [str] *)
| Throws (msg : string).         (* an [Exception], [msg] is its [str] *)

(** A tool answers from its arguments and the number of tool calls made
    before this one. *)
Abbreviation tool := (gmap string string → nat → outcome).

(** The [action] a lesson is filed under: the tool's name in
    [_execute_tool]; in [_analyze_and_retry_tool] the text
    [f"{tool_name}({...})"] made of the name and the first two items of
    the corrected arguments in the order of their insertion.  That text is
    kept here as the call it describes. *)
Inductive action : Type :=
| Named (tool_name : string)
| Described (tool_name : string) (corrected_args : gmap string string).

(** What the semantic memory is told. *)
Inductive lesson : Type :=
| LearnedSuccess (action : action) (result : string)
| LearnedError (action : action) (err : option string).

Record PyOSOrchestrator : Type := mkOrch {
  security_enabled : bool;
  shield : SecurityShield;
  max_iterations : nat;
  tools : gmap string tool;
  iteration_count : nat;
  action_log : list ActionLog;
  memory : bool;
  max_retries : nat;
}.

(** The world outside the orchestrator: the tool calls made so far, in
    order, and what the memory has been told. *)
Record world : Type := mkWorld {
  calls : list (string * gmap string string);
  lessons : list lesson;
}.

Definition called (w : world) (name : string) (args : gmap string string)
  : world :=
  {| calls := calls w ++ [(name, args)]; lessons := lessons w |}.

Definition learn (o : PyOSOrchestrator) (w : world) (l : lesson) : world :=
  if memory o then {| calls := calls w; lessons := lessons w ++ [l] |}
  else w.

(** [str(e)] *)
Definition str_exn (e : exn) : string :=
  match e with
  | IndexError m | ValueError m | SecurityViolationError m | SyntaxError m
  | AttributeError m | TypeError m | Exception m => m
  | RecursionError => "maximum recursion depth exceeded"
  | EOFError => ""
  end.

(** [str(n)] *)
Definition str_nat (n : nat) : string :=
  NilEmpty.string_of_uint (Nat.to_uint n).

Definition variants : list (string * string) :=
  [("python", "python3"); ("node", "nodejs"); ("pip", "pip3")].

(** [_propose_error_fix] *)
Definition propose_error_fix (tool_name : string)
    (tool_args : gmap string string) (error : string)
  : gmap string string :=
  let corrected := tool_args in
  let error_lower := PyStr.lower error in
  if PyStr.contains "permission denied" error_lower then
    if String.eqb tool_name "execute_command" then
      let cmd := default "" (corrected !! "command") in
      if negb (PyStr.startswith cmd "sudo") then
        <["command" := "sudo " +:+ cmd]> corrected
      else corrected
    else corrected
  else if PyStr.contains "no such file" error_lower
          || PyStr.contains "not found" error_lower then
    corrected
  else if PyStr.contains "command not found" error_lower then
    if String.eqb tool_name "execute_command" then
      let cmd := default "" (corrected !! "command") in
      match List.find (fun v => PyStr.startswith cmd (fst v)) variants with
      | Some (old, new) =>
          <["command" := PyStr.replace_first old new cmd]> corrected
      | None => corrected
      end
    else corrected
  else corrected.

(** The wrapper of [_wrap_tool_with_security], for a call by keyword as
    [_execute_tool] makes it: the tool is registered, the command and path
    checks look at positional arguments only and are passed over.  A
    [ToolResult] of the function is handed on as the object it is, another
    value is put into a new [ToolResult] as its [str], and an [Exception]
    the function raises becomes a failed [ToolResult]. *)
Definition wrap_tool_with_security (func : tool) : tool :=
  λ args n,
    match func args n with
    | Returns result => Returns result
    | ReturnsValue shown => Returns (plain_result true (Text shown) None)
    | Throws e => Returns (plain_result false (Text "") (Some e))
    end.

(** [register_tool] *)
Definition register_tool (o : PyOSOrchestrator) (name : string) (func : tool)
  : PyOSOrchestrator :=
  {| security_enabled := security_enabled o;
     shield := shield o;
     max_iterations := max_iterations o;
     tools := <[name := wrap_tool_with_security func]> (tools o);
     iteration_count := iteration_count o;
     action_log := action_log o;
     memory := memory o;
     max_retries := max_retries o |}.

(** [_execute_tool] and [_analyze_and_retry_tool] call each other.
    [depth] is the room left on the interpreter's call stack: a call
    with none left raises [RecursionError], which nothing on the way up
    catches (the calls stand outside every [try]).  Inside the [try] of
    [_execute_tool] stand the call of the tool and, for a successful
    result with the memory on, the slice [result.output[:100]]: an
    exception of either starts the retries. *)
Fixpoint execute_tool (depth : nat) (o : PyOSOrchestrator) (w : world)
    (tool_name : string) (tool_args : gmap string string) {struct depth}
  : result ToolResult * world :=
  match depth with
  | O => (Raise RecursionError, w)
  | S depth' =>
      match tools o !! tool_name with
      | None =>
          (Ok (plain_result false (Text "")
                 (Some ("Ferramenta nao encontrada: " +:+ tool_name))),
           w)
      | Some tool_func =>
          let w1 := called w tool_name tool_args in
          match tool_func tool_args (length (calls w)) with
          | Returns result =>
              if success result && memory o then
                match slice100 (output result) with
                | Ok text =>
                    (Ok result,
                     learn o w1 (LearnedSuccess (Named tool_name) text))
                | Raise e =>
                    analyze_and_retry_tool depth' o w1 tool_name tool_args
                      (str_exn e) 1
                end
              else (Ok result, w1)
          | ReturnsValue shown =>
              (Ok (plain_result true (Text shown) None), w1)
          | Throws error_msg =>
              analyze_and_retry_tool depth' o w1 tool_name tool_args
                error_msg 1
          end
      end
  end

with analyze_and_retry_tool (depth : nat) (o : PyOSOrchestrator) (w : world)
    (tool_name : string) (tool_args : gmap string string)
    (original_error : string) (attempt : nat) {struct depth}
  : result ToolResult * world :=
  match depth with
  | O => (Raise RecursionError, w)
  | S depth' =>
      if max_retries o <? attempt then
        (Ok (plain_result false (Text "")
               (Some ("Falha permanente apos " +:+ str_nat (max_retries o)
                      +:+ " tentativas: " +:+ original_error))),
         w)
      else
        let corrected_args :=
          propose_error_fix tool_name tool_args original_error in
        match execute_tool depth' o w tool_name corrected_args with
        | (Raise e, w1) => (Raise e, w1)
        | (Ok retriable_result, w1) =>
            let action_desc := Described tool_name corrected_args in
            if success retriable_result then
              if memory o then
                match slice100 (output retriable_result) with
                | Ok text =>
                    (Ok retriable_result,
                     learn o w1 (LearnedSuccess action_desc text))
                | Raise e => (Raise e, w1)
                end
              else (Ok retriable_result, w1)
            else
              let w2 :=
                learn o w1 (LearnedError action_desc (error retriable_result)) in
              let next_error :=
                match error retriable_result with
                | Some e => if PyStr.truthy e then e else original_error
                | None => original_error
                end in
              analyze_and_retry_tool depth' o w2 tool_name corrected_args
                next_error (S attempt)
        end
  end.

(** *** The objective loop *)

(** What [_call_model] returns. *)
Record decision : Type := mkDecision {
  done : bool;
  message : option string;
  reasoning : string;
  chosen_tool : option string;
  chosen_args : gmap string string;
}.

(** An entry of the history handed back to the model. *)
Record event : Type := mkEvent {
  event_tool : string;
  event_result : value;
  event_success : bool;
}.

(** The dictionary [execute_objective] returns, without the times. *)
Record report : Type := mkReport {
  report_success : bool;
  report_objective : string;
  report_iterations : nat;
  report_text : string;
  report_log : list ActionLog;
}.

(** [_log_action] *)
Definition log_action (o : PyOSOrchestrator) (action_type : string)
    (tool_name : option string) (success security_validated : bool)
    (details : list (string * string)) : PyOSOrchestrator :=
  let action :=
    {| iteration := iteration_count o;
       action_type := action_type;
       tool_name := tool_name;
       security_validated := security_validated;
       log_success := success;
       details := details |} in
  {| security_enabled := security_enabled o;
     shield := shield o;
     max_iterations := max_iterations o;
     tools := tools o;
     iteration_count := iteration_count o;
     action_log := action_log o ++ [action];
     memory := memory o;
     max_retries := max_retries o |}.

(** The two assignments that open [execute_objective]. *)
Definition begin_objective (o : PyOSOrchestrator) : PyOSOrchestrator :=
  {| security_enabled := security_enabled o;
     shield := shield o;
     max_iterations := max_iterations o;
     tools := tools o;
     iteration_count := 0;
     action_log := [];
     memory := memory o;
     max_retries := max_retries o |}.

(** [self.iteration_count += 1] *)
Definition next_iteration (o : PyOSOrchestrator) : PyOSOrchestrator :=
  {| security_enabled := security_enabled o;
     shield := shield o;
     max_iterations := max_iterations o;
     tools := tools o;
     iteration_count := S (iteration_count o);
     action_log := action_log o;
     memory := memory o;
     max_retries := max_retries o |}.

(** [tool_result.execution_time] and [tool_result.security_validated]:
    the attribute if the object has it, an [AttributeError] if not. *)
Definition get_execution_time (r : ToolResult) : result string :=
  match attr_execution_time r with
  | Some seconds => Ok seconds
  | None =>
      Raise (AttributeError
               "'ToolResult' object has no attribute 'execution_time'")
  end.

Definition get_security_validated (r : ToolResult) : result bool :=
  match attr_security_validated r with
  | Some validated => Ok validated
  | None =>
      Raise (AttributeError
               "'ToolResult' object has no attribute 'security_validated'")
  end.

(** The lines of [execute_objective] between the call of [_execute_tool]
    and [messages.append]: the log lines of a successful result, whose
    arguments are evaluated and can raise, then the arguments of
    [_log_action] in the order they are written, then the entry. *)
Definition log_tool_result (o : PyOSOrchestrator) (name : string)
    (tool_result : ToolResult) : result PyOSOrchestrator :=
  rbind (if success tool_result then
           rbind (get_execution_time tool_result) (λ _,
           rbind (len (output tool_result)) (λ n,
             if 100 <? n
             then rbind (slice100 (output tool_result)) (λ _, Ok tt)
             else Ok tt))
         else Ok tt) (λ _,
  rbind (get_security_validated tool_result) (λ validated,
  rbind (if truth (output tool_result)
         then slice100 (output tool_result)
         else Ok "") (λ shown,
  rbind (get_execution_time tool_result) (λ seconds,
    Ok (log_action o "tool_execution" (Some name) (success tool_result)
          validated
          [("output", shown);
           ("error", default "None" (error tool_result));
           ("execution_time", seconds)]))))).

(** The placeholder body of [_call_model]. *)
Definition call_model_placeholder (o : PyOSOrchestrator) (objective : string)
    (messages : list event) : result decision :=
  let finished := 3 <=? iteration_count o in
  Ok {| done := finished;
        message := Some "Objetivo processado com sucesso";
        reasoning := "Simulacao de resposta do modelo";
        chosen_tool := if finished then None else Some "take_screenshot";
        chosen_args := ∅ |}.

Inductive step : Type :=
| Continue (messages : list event)
| Return (r : report).

Section Objective.

(** The decision provider behind [_call_model], and the room on the
    call stack. *)
Variable call_model :
  PyOSOrchestrator → string → list event → result decision.
Variable depth : nat.

(** The [except Exception] clause of the loop body. *)
Definition on_error (o : PyOSOrchestrator) (w : world) (objective : string)
    (e : exn) : step * PyOSOrchestrator * world :=
  let o := log_action o "error" None false false [("error", str_exn e)] in
  (Return {| report_success := false;
             report_objective := objective;
             report_iterations := iteration_count o;
             report_text := str_exn e;
             report_log := action_log o |},
   o, w).

(** One pass through the body of the [while] loop. *)
Definition iterate (o : PyOSOrchestrator) (w : world) (objective : string)
    (messages : list event) : step * PyOSOrchestrator * world :=
  let o := next_iteration o in
  match call_model o objective messages with
  | Raise e => on_error o w objective e
  | Ok response =>
      if done response then
        let o :=
          log_action o "ai_decision" None true false
            [("decision", "done");
             ("message", default "None" (message response))] in
        (Return {| report_success := true;
                   report_objective := objective;
                   report_iterations := iteration_count o;
                   report_text := default "" (message response);
                   report_log := action_log o |},
         o, w)
      else
        let unknown :=
          match chosen_tool response with
          | None => true
          | Some name =>
              negb (PyStr.truthy name) || bool_decide (tools o !! name = None)
          end in
        if unknown then
          let o :=
            log_action o "ai_decision" None false false
              [("tool", default "None" (chosen_tool response));
               ("error", "not_found")] in
          (Continue messages, o, w)
        else
          let name := default "" (chosen_tool response) in
          match execute_tool depth o w name (chosen_args response) with
          | (Raise e, w) => on_error o w objective e
          | (Ok tool_result, w) =>
              match log_tool_result o name tool_result with
              | Raise e => on_error o w objective e
              | Ok o =>
                  (Continue
                     (messages
                      ++ [{| event_tool := name;
                             event_result := output tool_result;
                             event_success := success tool_result |}]),
                   o, w)
              end
          end
  end.

(** The [while] loop; [remaining] is
    [max_iterations - iteration_count]. *)
Fixpoint loop (remaining : nat) (o : PyOSOrchestrator) (w : world)
    (objective : string) (messages : list event)
  : report * PyOSOrchestrator * world :=
  match remaining with
  | O =>
      ({| report_success := false;
          report_objective := objective;
          report_iterations := iteration_count o;
          report_text := "Maximo de iteracoes atingido sem completar objetivo";
          report_log := action_log o |},
       o, w)
  | S remaining' =>
      match iterate o w objective messages with
      | (Return r, o, w) => (r, o, w)
      | (Continue messages, o, w) => loop remaining' o w objective messages
      end
  end.

(** [execute_objective] *)
Definition execute_objective (o : PyOSOrchestrator) (w : world)
    (objective : string) : report * PyOSOrchestrator * world :=
  let o := begin_objective o in
  loop (max_iterations o - iteration_count o) o w objective [].

End Objective.

End Orchestrator.

(** ** Concrete configurations used below *)

Module Scenario.

Import Security.

Definition or_init (r : result SecurityShield) : SecurityShield :=
  match r with Ok s => s | Raise _ => init end.

(** A fresh shield after [add_allowed_command("rm")]. *)
Definition shield_rm : SecurityShield :=
  or_init (add_allowed_command init "rm").

(** A file system with no symbolic links in which every path exists; the
    process runs in [/]. *)
Definition resolve : string → result Fs.path := Fs.resolve [].
Definition exists_ : Fs.path → bool := λ _, true.

(** A fresh shield after [add_allowed_path("/tmp")]. *)
Definition shield_tmp : SecurityShield :=
  or_init (add_allowed_path resolve exists_ init "/tmp").

(** [ast.parse] on the sources used below: the tree of the one statement
    [open('/tmp/notes.txt')], and a syntax error for any other text. *)
Definition parse (code : string) : result Validator.node :=
  if String.eqb code "open('/tmp/notes.txt')" then
    Ok (Validator.Other
          [Validator.Other
             [Validator.Call (Validator.Name "open")
                [Validator.Constant (Validator.CStr "/tmp/notes.txt")] []]])
  else Raise (SyntaxError "invalid syntax").

(** A validator with the shield that allows [/tmp] attached. *)
Definition validator_tmp : Validator.PythonASTValidator :=
  {| Validator.shield := Some shield_tmp; Validator.violations := [] |}.

(** An operator who confirms every prompt. *)
Definition console_yes : Approval.console :=
  {| Approval.replies := λ _, Approval.Confirmed true; Approval.prompts := 0 |}.

(** An orchestrator with [max_retries = 2] and no memory, holding three
    tools: one that raises at every call, one that raises at its first
    call and returns a failed result afterwards, and a command runner on a
    machine that has [python3] but not [python]. *)
Definition failed (msg : string) : Orchestrator.ToolResult :=
  Orchestrator.plain_result false (Orchestrator.Text "") (Some msg).

Definition always_raises : Orchestrator.tool :=
  λ _ _, Orchestrator.Throws "boom".

Definition raises_once : Orchestrator.tool :=
  λ _ n, match n with
         | O => Orchestrator.Throws "boom"
         | S _ => Orchestrator.Returns (failed "still failing")
         end.

Definition execute_command : Orchestrator.tool :=
  λ args _,
    let cmd := default "" (args !! "command") in
    if PyStr.startswith cmd "python3" then
      Orchestrator.Returns
        (Orchestrator.plain_result true (Orchestrator.Text "done") None)
    else Orchestrator.Throws "command not found: python".

Definition orchestrator : Orchestrator.PyOSOrchestrator :=
  {| Orchestrator.security_enabled := true;
     Orchestrator.shield := shield_rm;
     Orchestrator.max_iterations := 10;
     Orchestrator.tools :=
       <["always_raises" := always_raises]>
         (<["raises_once" := raises_once]>
            (<["execute_command" := execute_command]> ∅));
     Orchestrator.iteration_count := 0;
     Orchestrator.action_log := [];
     Orchestrator.memory := false;
     Orchestrator.max_retries := 2 |}.

Definition quiet : Orchestrator.world :=
  {| Orchestrator.calls := []; Orchestrator.lessons := [] |}.

Definition python_script : gmap string string :=
  {[ "command" := "python script.py" ]}.

End Scenario.

(** ** More of [security.py], [orchestrator.py] and [config.py] *)

(** Words: strings without white space. *)
Module Words.

Fixpoint no_space (s : string) : bool :=
  match s with
  | EmptyString => true
  | String c s' => negb (PyStr.is_space c) && no_space s'
  end.

(** Not empty and free of white space: what [split()] yields. *)
Definition is_word (s : string) : bool := PyStr.truthy s && no_space s.

(** Empty, or beginning with white space: what may follow a word. *)
Definition starts_blank (s : string) : bool :=
  match s with
  | EmptyString => true
  | String c _ => PyStr.is_space c
  end.

End Words.

(** The decorators of [SecurityShield]. *)
Module Decorators.

Import Security.

(** [require_command_permission]: the wrapper it returns. *)
Definition require_command_permission {A : Type} (s : SecurityShield)
    (func : string → result A) (command : string) : result A :=
  rbind (validate_command s command) (λ _, func command).

(** [require_path_permission]: the wrapper it returns. *)
Definition require_path_permission {A : Type}
    (resolve : string → result Fs.path) (s : SecurityShield)
    (func : string → result A) (path : string) : result A :=
  rbind (validate_path resolve s path) (λ _, func path).

End Decorators.

(** Descendants in a syntax tree. *)
Module Tree.

Import Validator.

(** [m] is [n] or lies below it. *)
Inductive subnode (m : node) : node → Prop :=
| sub_here : subnode m m
| sub_below n c : c ∈ iter_child_nodes n → subnode m c → subnode m n.

(** A node for which the three checks add nothing. *)
Definition quiet (resolve : string → result Fs.path)
    (sh : option Security.SecurityShield) (n : node) : Prop :=
  check_import n = [] ∧ check_function_call n = []
  ∧ check_builtin_call resolve sh n = Ok [].

End Tree.

(** [_wrap_tool_with_security] in full: positional and keyword
    arguments. *)
Module Supervisor.

Import Security Orchestrator.

(** A function handed to [register_tool]: positional arguments, keyword
    arguments, and the number of tool calls made before. *)
Abbreviation raw_tool := (list string → gmap string string → nat → outcome).

Definition failure (msg : string) : ToolResult :=
  plain_result false (Text "") (Some msg).

Section FileSystem.

Variable resolve : string → result Fs.path.

(** The two argument checks; an exception of either ends the call. *)
Definition check_arguments (o : PyOSOrchestrator) (tool_name : string)
    (args : list string) : result unit :=
  rbind
    (match args with
     | command :: _ =>
         if String.eqb tool_name "execute_command" && security_enabled o
         then validate_command (shield o) command
         else Ok tt
     | [] => Ok tt
     end)
    (λ _,
       match args with
       | path :: _ =>
           if String.eqb tool_name "read_file" && security_enabled o
           then validate_path resolve (shield o) path
           else Ok tt
       | [] => Ok tt
       end).

(** The wrapper; it catches every [Exception] and returns a
    [ToolResult]. *)
Definition wrapper (o : PyOSOrchestrator) (tool_name : string)
    (func : raw_tool) (args : list string) (kwargs : gmap string string)
    (n : nat) : ToolResult :=
  if bool_decide (tools o !! tool_name = None) then
    failure ("Ferramenta nao registrada: " +:+ tool_name)
  else
    match check_arguments o tool_name args with
    | Raise e => failure (str_exn e)
    | Ok _ =>
        match func args kwargs n with
        | Returns result => result
        | ReturnsValue shown => plain_result true (Text shown) None
        | Throws e => failure e
        end
    end.

End FileSystem.

End Supervisor.

(** [Settings.get_allowed_paths] of [config.py]. *)
Module Config.

(** [get_allowed_paths], from the value of [allowed_execution_paths]. *)
Definition get_allowed_paths (allowed_execution_paths : string) : list string :=
  if negb (PyStr.truthy allowed_execution_paths) then []
  else
    flat_map
      (λ p, if PyStr.truthy (PyStr.strip p) then [PyStr.strip p] else [])
      (PyStr.split_on ":" allowed_execution_paths).

End Config.

(** Inputs for the examples of the second part. *)
Module Cases.

Import Security Validator.

(** The tree of
    [import subprocess] followed by [subprocess.run("rm -rf /")]. *)
Definition whole_module_tree : node :=
  Other [Import ["subprocess"];
         Other [Call (Attribute (Name "subprocess") "run")
                  [Constant (CStr "rm -rf /")] []]].

Definition parse_whole_module (code : string) : result node :=
  Ok whole_module_tree.

(** A tree with [eval] deep inside: [print(len(eval(x)))]. *)
Definition nested_eval_tree : node :=
  Other [Other [Call (Name "print")
                  [Call (Name "len") [Call (Name "eval") [Name "x"] []] []]
                  []]].

(** [from unittest.mock import call] *)
Definition mock_call_tree : node :=
  Other [ImportFrom (Some "unittest.mock") ["call"]].

(** An operator who declines every prompt. *)
Definition console_no : Approval.console :=
  {| Approval.replies := λ _, Approval.Confirmed false; Approval.prompts := 0 |}.

(** A tool that raises "permission denied" at its first call and returns
    success afterwards. *)
Definition recovers : Orchestrator.tool :=
  λ _ n, match n with
         | O => Orchestrator.Throws "Permission denied"
         | S _ =>
             Orchestrator.Returns
               (Orchestrator.plain_result true (Orchestrator.Text "ok") None)
         end.

(** The orchestrator of the first part with the memory switched on and
    that tool added. *)
Definition orchestrator_memory : Orchestrator.PyOSOrchestrator :=
  {| Orchestrator.security_enabled := true;
     Orchestrator.shield := Scenario.shield_rm;
     Orchestrator.max_iterations := 10;
     Orchestrator.tools :=
       <["recovers" := recovers]> (Orchestrator.tools Scenario.orchestrator);
     Orchestrator.iteration_count := 0;
     Orchestrator.action_log := [];
     Orchestrator.memory := true;
     Orchestrator.max_retries := 2 |}.





Definition returns_none : Orchestrator.tool :=
  λ _ _,
    Orchestrator.Returns
      (Orchestrator.plain_result true
         (Orchestrator.Object "NoneType" false "None") None).


(** A function that reports the command it was given by keyword. *)
Definition echo_command : Supervisor.raw_tool :=
  λ _ kwargs _,
    Orchestrator.ReturnsValue ("ran " +:+ default "" (kwargs !! "command")).

End Cases.

(** * Properties *)

(** ** Strings *)

Section StringFacts.

Implicit Types s t p : string.

Lemma sapp_cons c s t : String c s +:+ t = String c (s +:+ t).
Proof. reflexivity. Qed.

Lemma sapp_nil_l s : "" +:+ s = s.
Proof. reflexivity. Qed.

Lemma sapp_nil_r s : s +:+ "" = s.
Proof. induction s as [|c s IH]; [reflexivity|]. by rewrite sapp_cons, IH. Qed.

Lemma sapp_assoc s t p : (s +:+ t) +:+ p = s +:+ (t +:+ p).
Proof.
  induction s as [|c s IH]; [reflexivity|]. by rewrite !sapp_cons, IH.
Qed.

Lemma sapp_eq_nil s t : s +:+ t = "" → s = "" ∧ t = "".
Proof. destruct s; [rewrite sapp_nil_l; auto|rewrite sapp_cons; discriminate]. Qed.

Lemma sprefix_cons c d p s :
  String.prefix (String c p) (String d s)
  = bool_decide (c = d) && String.prefix p s.
Proof.
  simpl. destruct (ascii_dec c d) as [->|Hne].
  - by rewrite bool_decide_eq_true_2.
  - by rewrite bool_decide_eq_false_2.
Qed.

Lemma prefix_spec p s : String.prefix p s = true ↔ ∃ t, s = p +:+ t.
Proof.
  revert s. induction p as [|c p IH]; intros s.
  - split; [intros _; by exists s|]. by destruct s.
  - destruct s as [|d s].
    + split; [discriminate|]. intros [t Ht]. rewrite sapp_cons in Ht. discriminate.
    + rewrite sprefix_cons, andb_true_iff, bool_decide_eq_true, IH.
      split.
      * intros [-> [t ->]]. by exists t.
      * intros [t Ht]. rewrite sapp_cons in Ht. injection Ht as -> ->. eauto.
Qed.

(** [needle in hay] holds exactly when [hay] has [needle] as a
    contiguous piece. *)
Lemma contains_spec needle hay :
  PyStr.contains needle hay = true ↔ ∃ pre post, hay = pre +:+ needle +:+ post.
Proof.
  induction hay as [|c hay IH].
  - cbn [PyStr.contains]. rewrite orb_false_r, prefix_spec. split.
    + intros [t Ht]. by exists "", t.
    + intros (pre & post & H). symmetry in H.
      apply sapp_eq_nil in H as [-> H]. apply sapp_eq_nil in H as [-> ->].
      by exists "".
  - cbn [PyStr.contains].
    rewrite orb_true_iff, prefix_spec, IH. split.
    + intros [[t Ht]|(pre & post & ->)].
      * by exists "", t.
      * by exists (String c pre), post.
    + intros (pre & post & H). destruct pre as [|d pre].
      * left. by exists post.
      * right. rewrite sapp_cons in H. injection H as -> ->. eauto.
Qed.

Lemma contains_app pre needle post :
  PyStr.contains needle (pre +:+ needle +:+ post) = true.
Proof. apply contains_spec. eauto. Qed.

(** A string that has [a ++ b] in it has [b] in it. *)
Lemma contains_suffix a b s :
  PyStr.contains (a +:+ b) s = true → PyStr.contains b s = true.
Proof.
  rewrite !contains_spec. intros (pre & post & ->).
  exists (pre +:+ a), post. by rewrite !sapp_assoc.
Qed.

Lemma lower_app s t : PyStr.lower (s +:+ t) = PyStr.lower s +:+ PyStr.lower t.
Proof.
  induction s as [|c s IH]; [reflexivity|].
  by rewrite sapp_cons; simpl; rewrite IH.
Qed.

Lemma lower_app_inv s a b :
  PyStr.lower s = a +:+ b →
  ∃ s1 s2, s = s1 +:+ s2 ∧ PyStr.lower s1 = a ∧ PyStr.lower s2 = b.
Proof.
  revert s. induction a as [|c a IH]; intros s H.
  - exists "", s. by rewrite sapp_nil_l in H.
  - destruct s as [|d s]; [discriminate|].
    rewrite sapp_cons in H. simpl in H. injection H as Hc H.
    destruct (IH _ H) as (s1 & s2 & -> & <- & <-).
    exists (String d s1), s2. simpl. by rewrite Hc.
Qed.

Lemma is_space_lower c : PyStr.is_space (PyStr.lower_char c) = PyStr.is_space c.
Proof. by destruct c as [[] [] [] [] [] [] [] []]. Qed.

Lemma lower_char_idem c :
  PyStr.lower_char (PyStr.lower_char c) = PyStr.lower_char c.
Proof. by destruct c as [[] [] [] [] [] [] [] []]. Qed.

Lemma lower_char_newline c :
  Ascii.eqb (PyStr.lower_char c) "010" = Ascii.eqb c "010".
Proof. by destruct c as [[] [] [] [] [] [] [] []]. Qed.

Lemma all_space_lower s : PyStr.all_space (PyStr.lower s) = PyStr.all_space s.
Proof.
  induction s as [|c s IH]; [reflexivity|]. simpl. by rewrite is_space_lower, IH.
Qed.

Lemma all_space_app s t :
  PyStr.all_space (s +:+ t) = PyStr.all_space s && PyStr.all_space t.
Proof.
  induction s as [|c s IH]; [reflexivity|].
  rewrite sapp_cons. simpl. by rewrite IH, andb_assoc.
Qed.

Lemma lstrip_all_space s : PyStr.all_space s = true → PyStr.lstrip s = "".
Proof.
  induction s as [|c s IH]; [reflexivity|]. simpl.
  intros [Hc Hs]%andb_true_iff. by rewrite Hc, IH.
Qed.

(** White space only: nothing is left to index. *)
Lemma split_strip_all_space s :
  PyStr.all_space s = true → PyStr.split (PyStr.strip s) = [].
Proof. intros H. unfold PyStr.strip. by rewrite lstrip_all_space. Qed.

Lemma lstrip_keeps s :
  PyStr.all_space s = false → PyStr.all_space (PyStr.lstrip s) = false.
Proof.
  induction s as [|c s IH]; [discriminate|]. simpl.
  destruct (PyStr.is_space c) eqn:Hc; simpl; [done|]. by rewrite Hc.
Qed.

Lemma rstrip_nil s : PyStr.rstrip s = "" → PyStr.all_space s = true.
Proof.
  induction s as [|c s IH]; [reflexivity|]. simpl.
  destruct (PyStr.rstrip s) eqn:Hr; [|discriminate].
  destruct (PyStr.is_space c); [|discriminate]. intros _. by rewrite IH.
Qed.

Lemma rstrip_keeps s :
  PyStr.all_space s = false → PyStr.all_space (PyStr.rstrip s) = false.
Proof.
  induction s as [|c s IH]; [discriminate|]. simpl.
  destruct (PyStr.rstrip s) as [|d r] eqn:Hr.
  - apply rstrip_nil in Hr. rewrite Hr, andb_true_r.
    destruct (PyStr.is_space c) eqn:Hc; [done|]. intros _. simpl. by rewrite Hc.
  - destruct (PyStr.is_space c) eqn:Hc; simpl; rewrite Hc; simpl; [|done].
    intros H. by apply IH.
Qed.

Lemma split_go_cur cur s : cur ≠ "" → PyStr.split_go cur s ≠ [].
Proof.
  revert cur. induction s as [|c s IH]; intros cur Hcur; simpl.
  - by destruct cur.
  - destruct (PyStr.is_space c).
    + by destruct cur.
    + apply IH. by destruct cur.
Qed.

Lemma split_go_nonspace cur s :
  PyStr.all_space s = false → PyStr.split_go cur s ≠ [].
Proof.
  revert cur. induction s as [|c s IH]; intros cur; [discriminate|]. simpl.
  destruct (PyStr.is_space c); simpl.
  - intros H. destruct cur; [by apply IH|done].
  - intros _. apply split_go_cur. by destruct cur.
Qed.

(** A character that is not white space: there is a first word. *)
Lemma split_strip_nonspace s :
  PyStr.all_space s = false → PyStr.split (PyStr.strip s) ≠ [].
Proof.
  intros H. apply split_go_nonspace, rstrip_keeps, lstrip_keeps, H.
Qed.

Lemma isspace_spec s :
  PyStr.isspace s = true ↔ s ≠ "" ∧ PyStr.all_space s = true.
Proof. destruct s; simpl; [split; [discriminate|by intros []]|]. split; [done|by intros []]. Qed.

End StringFacts.

(** ** Patterns: the matcher finds exactly the language *)

Section RegexFacts.

Variable acc : Re.cls → ascii → bool.

Local Abbreviation matches := (Re.matches acc).
Local Abbreviation nullable := Re.nullable.
Local Abbreviation deriv := (Re.deriv acc).

Lemma matches_nil_nullable r s : matches r s → s = "" → nullable r = true.
Proof.
  induction 1 as [|k c Hk|r1 r2 s1 s2 _ IH1 _ IH2|r1 r2 s _ IH|r1 r2 s _ IH
                 |r|r s1 s2 _ _ _ _]; intros Hs; simpl; try done.
  - apply sapp_eq_nil in Hs as [-> ->]. by rewrite IH1, IH2.
  - by rewrite IH.
  - rewrite IH by done. apply orb_true_r.
Qed.

Lemma nullable_matches r : nullable r = true ↔ matches r "".
Proof.
  split; [|intros H; by eapply matches_nil_nullable].
  induction r as [| |k|r1 IH1 r2 IH2|r1 IH1 r2 IH2|r IH]; simpl; try done.
  - intros _. constructor.
  - intros [H1 H2]%andb_true_iff.
    change "" with ("" +:+ ""). constructor; auto.
  - intros [H|H]%orb_true_iff; [apply Re.m_alt_l|apply Re.m_alt_r]; auto.
  - intros _. constructor.
Qed.

Lemma deriv_sound c r s : matches (deriv c r) s → matches r (String c s).
Proof.
  revert s.
  induction r as [| |k|r1 IH1 r2 IH2|r1 IH1 r2 IH2|r IH]; intros s H; simpl in H.
  - inversion H.
  - inversion H.
  - destruct (acc k c) eqn:Hk; inversion H; subst. by constructor.
  - assert (Hcat : ∀ t, matches (Re.Cat (deriv c r1) r2) t →
                        matches (Re.Cat r1 r2) (String c t)).
    { intros t Ht. inversion Ht; subst. rewrite <- sapp_cons.
      constructor; auto. }
    destruct (nullable r1) eqn:Hn; [|by apply Hcat].
    inversion H; subst; [by apply Hcat|].
    rewrite <- (sapp_nil_l (String c s)).
    constructor; [by apply nullable_matches|auto].
  - inversion H; subst; [apply Re.m_alt_l|apply Re.m_alt_r]; auto.
  - inversion H; subst. rewrite <- sapp_cons. constructor; auto.
Qed.

Lemma deriv_complete c r s0 :
  matches r s0 → ∀ s, s0 = String c s → matches (deriv c r) s.
Proof.
  induction 1 as [|k d Hk|r1 r2 s1 s2 H1 IH1 H2 IH2|r1 r2 s0 _ IH|r1 r2 s0 _ IH
                 |r|r s1 s2 H1 IH1 H2 IH2]; intros s Hs; simpl; try done.
  - injection Hs as -> <-. rewrite Hk. constructor.
  - destruct s1 as [|d s1].
    + rewrite sapp_nil_l in Hs.
      assert (nullable r1 = true) as -> by by apply nullable_matches.
      apply Re.m_alt_r. auto.
    + rewrite sapp_cons in Hs. injection Hs as -> <-.
      assert (matches (Re.Cat (deriv c r1) r2) (s1 +:+ s2))
        by (constructor; auto).
      destruct (nullable r1); [by apply Re.m_alt_l|done].
  - apply Re.m_alt_l. auto.
  - apply Re.m_alt_r. auto.
  - destruct s1 as [|d s1].
    + rewrite sapp_nil_l in Hs. by apply IH2.
    + rewrite sapp_cons in Hs. injection Hs as -> <-. constructor; auto.
Qed.

(** [match_here] answers whether a prefix is in the language. *)
Lemma match_here_spec r s :
  Re.match_here acc r s = true ↔ ∃ s1 s2, s = s1 +:+ s2 ∧ matches r s1.
Proof.
  revert r. induction s as [|c s IH]; intros r; cbn [Re.match_here].
  - rewrite orb_false_r, nullable_matches. split.
    + intros H. by exists "", "".
    + intros (s1 & s2 & Hs & H). symmetry in Hs.
      by apply sapp_eq_nil in Hs as [-> _].
  - rewrite orb_true_iff, nullable_matches, IH. split.
    + intros [H|(s1 & s2 & -> & H)].
      * by exists "", (String c s).
      * exists (String c s1), s2. split; [done|by apply deriv_sound].
    + intros (s1 & s2 & Hs & H). destruct s1 as [|d s1]; [by left|right].
      rewrite sapp_cons in Hs. injection Hs as <- ->.
      exists s1, s2. split; [done|]. by eapply deriv_complete.
Qed.

(** [search] answers whether the pattern is found somewhere. *)
Lemma search_spec r s : Re.search acc r s = true ↔ Re.found acc r s.
Proof.
  unfold Re.found. induction s as [|c s IH]; cbn [Re.search].
  - rewrite orb_false_r, match_here_spec. split.
    + intros (s1 & s2 & -> & H). by exists "", s1, s2.
    + intros (s0 & s1 & s2 & Hs & H). symmetry in Hs.
      apply sapp_eq_nil in Hs as [-> Hs]. apply sapp_eq_nil in Hs as [-> ->].
      by exists "", "".
  - rewrite orb_true_iff, match_here_spec, IH. split.
    + intros [(s1 & s2 & -> & H)|(s0 & s1 & s2 & -> & H)].
      * by exists "", s1, s2.
      * by exists (String c s0), s1, s2.
    + intros (s0 & s1 & s2 & Hs & H). destruct s0 as [|d s0].
      * left. by exists s1, s2.
      * right. rewrite sapp_cons in Hs. injection Hs as <- ->.
        by exists s0, s1, s2.
Qed.

End RegexFacts.

(** A pattern that needs a character other than white space is not found
    in white space. *)
Lemma needs_nonspace_matches r s :
  Re.matches Re.exact r s → Re.needs_nonspace r = true →
  PyStr.all_space s = false.
Proof.
  induction 1 as [|k c Hk|r1 r2 s1 s2 _ IH1 _ IH2|r1 r2 s _ IH|r1 r2 s _ IH
                 |r|r s1 s2 _ _ _ _]; simpl; try done.
  - destruct k as [d| |]; try done. simpl in Hk.
    apply Ascii.eqb_eq in Hk as ->. intros ->%negb_true_iff. done.
  - rewrite all_space_app. intros [H|H]%orb_true_iff.
    + by rewrite IH1.
    + rewrite IH2 by done. apply andb_false_r.
  - intros [H _]%andb_true_iff. auto.
  - intros [_ H]%andb_true_iff. auto.
Qed.

Lemma needs_nonspace_found r s :
  Re.found Re.exact r s → Re.needs_nonspace r = true →
  PyStr.all_space s = false.
Proof.
  intros (s0 & s1 & s2 & -> & H) Hr.
  rewrite !all_space_app, (needs_nonspace_matches r s1 H Hr).
  by rewrite andb_false_r.
Qed.

(** Searching the lower-cased text with a lower-case pattern is searching
    the text itself without regard to case. *)
Lemma nocase_lower r s :
  Re.lowercase r = true →
  Re.matches Re.nocase r s → Re.matches Re.exact r (PyStr.lower s).
Proof.
  intros Hr H. revert Hr.
  induction H as [|k c Hk|r1 r2 s1 s2 _ IH1 _ IH2|r1 r2 s _ IH|r1 r2 s _ IH
                 |r|r s1 s2 _ IH1 _ IH2]; simpl; intros Hr.
  - constructor.
  - constructor. destruct k as [d| |]; simpl in *.
    + apply Ascii.eqb_eq in Hr. apply Ascii.eqb_eq in Hk.
      apply Ascii.eqb_eq. congruence.
    + by rewrite is_space_lower.
    + by rewrite lower_char_newline.
  - apply andb_true_iff in Hr as [H1 H2]. rewrite lower_app. constructor; auto.
  - apply andb_true_iff in Hr as [H1 H2]. apply Re.m_alt_l; auto.
  - apply andb_true_iff in Hr as [H1 H2]. apply Re.m_alt_r; auto.
  - constructor.
  - rewrite lower_app. constructor; auto.
Qed.

Lemma lower_nocase r s0 :
  Re.matches Re.exact r s0 → ∀ s, s0 = PyStr.lower s →
  Re.lowercase r = true → Re.matches Re.nocase r s.
Proof.
  induction 1 as [|k c Hk|r1 r2 s1 s2 _ IH1 _ IH2|r1 r2 s0 _ IH|r1 r2 s0 _ IH
                 |r|r s1 s2 _ IH1 _ IH2]; simpl; intros s Hs Hr.
  - destruct s; [constructor|discriminate].
  - destruct s as [|d [|? ?]]; try discriminate. simpl in Hs.
    injection Hs as ->. constructor. destruct k as [e| |]; simpl in *.
    + apply Ascii.eqb_eq in Hk as ->. rewrite lower_char_idem.
      apply Ascii.eqb_refl.
    + by rewrite is_space_lower in Hk.
    + by rewrite lower_char_newline in Hk.
  - apply andb_true_iff in Hr as [H1 H2]. symmetry in Hs.
    apply lower_app_inv in Hs as (t1 & t2 & -> & <- & <-). constructor; auto.
  - apply andb_true_iff in Hr as [H1 H2]. apply Re.m_alt_l; auto.
  - apply andb_true_iff in Hr as [H1 H2]. apply Re.m_alt_r; auto.
  - destruct s; [constructor|discriminate].
  - symmetry in Hs.
    apply lower_app_inv in Hs as (t1 & t2 & -> & <- & <-). constructor; auto.
Qed.

Lemma found_nocase_lower r s :
  Re.lowercase r = true →
  Re.found Re.nocase r s ↔ Re.found Re.exact r (PyStr.lower s).
Proof.
  intros Hr. split.
  - intros (s0 & s1 & s2 & -> & H).
    exists (PyStr.lower s0), (PyStr.lower s1), (PyStr.lower s2).
    rewrite !lower_app. split; [done|by apply nocase_lower].
  - intros (s0 & s1 & s2 & Hs & H).
    apply lower_app_inv in Hs as (t0 & t & -> & <- & Hs).
    apply lower_app_inv in Hs as (t1 & t2 & -> & <- & <-).
    exists t0, t1, t2. split; [done|]. by eapply lower_nocase.
Qed.


(** ** The command gate *)

Import Security.

Lemma default_patterns_compiled :
  Re.compile <$> blocked_sources = Some <$> default_blocked_patterns.
Proof. reflexivity. Qed.

Lemma default_patterns_shape :
  Forall (λ p, Re.lowercase p = true ∧ Re.needs_nonspace p = true)
    default_blocked_patterns.
Proof. repeat constructor. Qed.

(** The catalog is fixed when the shield is made: no operation changes
    it. *)
Lemma init_patterns : blocked_patterns init = default_blocked_patterns.
Proof. reflexivity. Qed.

Lemma add_allowed_command_patterns s command s' :
  add_allowed_command s command = Ok s' →
  blocked_patterns s' = blocked_patterns s.
Proof.
  unfold add_allowed_command. destruct (negb _); [discriminate|].
  by intros [= <-].
Qed.

Lemma add_allowed_path_patterns resolve exists_ s path s' :
  add_allowed_path resolve exists_ s path = Ok s' →
  blocked_patterns s' = blocked_patterns s.
Proof.
  unfold add_allowed_path. destruct (resolve path) as [p|e]; simpl; [|discriminate].
  destruct (negb _); [discriminate|]. by intros [= <-].
Qed.

Lemma existsb_search (ps : list Re.regex) text p :
  p ∈ ps → Re.search Re.exact p text = true →
  existsb (λ pattern, Re.search Re.exact pattern text) ps = true.
Proof.
  intros Hp Hs. apply existsb_exists. exists p. split; [|done].
  by apply list_elem_of_In.
Qed.

(** C1. A command in which some blocked pattern is found, case ignored,
    is refused: [is_command_allowed] returns [False], whatever the allow
    set holds -- so also when the first word of the command is allowed, as
    for ["rm -rf /"] after [add_allowed_command("rm")]. *)
Theorem blocked_pattern_overrides_allow (s : SecurityShield) (c : string) :
  blocked_patterns s = default_blocked_patterns →
  (∃ p, p ∈ blocked_patterns s ∧ Re.found Re.nocase p c) →
  is_command_allowed s c = Ok false.
Proof.
  intros Hd (p & Hp & Hfound).
  assert (Re.lowercase p = true ∧ Re.needs_nonspace p = true) as [Hlow Hneed].
  { pose proof default_patterns_shape as Hall.
    rewrite Forall_forall in Hall. apply Hall. by rewrite <- Hd. }
  apply found_nocase_lower in Hfound; [|done].
  assert (PyStr.all_space c = false) as Hc.
  { rewrite <- all_space_lower. by eapply needs_nonspace_found. }
  unfold is_command_allowed.
  destruct c as [|a c]; [discriminate|]. cbn [PyStr.truthy negb].
  pose proof (split_strip_nonspace _ Hc) as Hsplit.
  destruct (PyStr.split _) as [|tok toks]; [done|].
  rewrite (existsb_search _ _ p); [done|done|]. by apply search_spec.
Qed.

Lemma blocked_pattern_overrides_allow_witness :
  bool_decide ("rm" ∈ allowed_commands Scenario.shield_rm) = true
  ∧ is_command_allowed Scenario.shield_rm "rm -rf /" = Ok false.
Proof.
  split; [reflexivity|].
  apply blocked_pattern_overrides_allow; [reflexivity|].
  eexists. split; [left|].
  apply (search_spec Re.nocase). reflexivity.
Defined.

(** C9. [is_command_allowed] answers [False] for the empty string, but a
    string that is not empty and holds white space only passes that test
    and then has no first word: indexing the split raises [IndexError]. *)
Theorem is_command_allowed_whitespace (s : SecurityShield) :
  is_command_allowed s "" = Ok false
  ∧ ∀ c, PyStr.isspace c = true →
         is_command_allowed s c = Raise (IndexError "list index out of range").
Proof.
  split; [reflexivity|]. intros c [Hne Hall]%isspace_spec.
  unfold is_command_allowed. destruct c as [|a c]; [done|].
  cbn [PyStr.truthy negb]. by rewrite split_strip_all_space.
Qed.

Lemma is_command_allowed_whitespace_witness :
  PyStr.isspace "   " = true
  ∧ is_command_allowed Scenario.shield_rm "   "
    = Raise (IndexError "list index out of range").
Proof.
  split; [reflexivity|].
  apply (is_command_allowed_whitespace Scenario.shield_rm). reflexivity.
Defined.

(** ** The approval gate: critical commands *)

Lemma existsb_elements (f : string → bool) (K : gset string) :
  existsb f (elements K) = true ↔ ∃ k, k ∈ K ∧ f k = true.
Proof.
  rewrite existsb_exists. split; intros (k & Hk & Hf); exists k; split; try done.
  - by rewrite <- elem_of_elements, list_elem_of_In.
  - by rewrite <- list_elem_of_In, elem_of_elements.
Qed.

Import Approval.

(** C10. [is_critical] is true exactly when the lower-cased command has a
    critical keyword somewhere inside it, as a piece of the text and not as
    a word of its own; so every command with "farm" in it is critical,
    through the keyword "rm". *)
Theorem is_critical_substring :
  (∀ command,
     is_critical command = true
     ↔ ∃ keyword, keyword ∈ CRITICAL_KEYWORDS
         ∧ ∃ pre post, PyStr.lower command = pre +:+ keyword +:+ post)
  ∧ (∀ pre post, is_critical (pre +:+ "farm" +:+ post) = true)
  ∧ "farm" ∉ CRITICAL_KEYWORDS.
Proof.
  assert (Hiff : ∀ command,
     is_critical command = true
     ↔ ∃ keyword, keyword ∈ CRITICAL_KEYWORDS
         ∧ ∃ pre post, PyStr.lower command = pre +:+ keyword +:+ post).
  { intros command. unfold is_critical. rewrite existsb_elements.
    by setoid_rewrite contains_spec. }
  split; [done|]. split.
  - intros pre post. apply Hiff. exists "rm". split.
    + unfold CRITICAL_KEYWORDS. set_solver.
    + exists (PyStr.lower pre +:+ "fa"), (PyStr.lower post).
      rewrite !lower_app, !sapp_assoc. reflexivity.
  - apply (bool_decide_eq_false_1 ("farm" ∈ CRITICAL_KEYWORDS)).
    by vm_compute.
Qed.

(** ** The path gate *)

Lemma relative_to_ok (p other : Fs.path) :
  (∃ rest, Fs.relative_to p other = Ok rest) ↔ other `prefix_of` p.
Proof.
  revert p. induction other as [|a other IH]; intros p; simpl.
  - split; [intros _; apply prefix_nil|intros _; by exists p].
  - destruct p as [|b p].
    + split; [by intros [? ?]|]. intros [k Hk]. discriminate.
    + destruct (String.eqb_spec a b) as [->|Hne].
      * rewrite IH. split; [apply prefix_cons|apply prefix_cons_inv_2].
      * split; [by intros [? ?]|]. by intros ?%prefix_cons_inv_1.
Qed.

Lemma under_some_spec (p : Fs.path) (roots : list Fs.path) :
  under_some p roots = true ↔ ∃ r, r ∈ roots ∧ r `prefix_of` p.
Proof.
  induction roots as [|a roots IH]; simpl.
  - split; [discriminate|]. intros (r & Hr & _). by apply elem_of_nil in Hr.
  - destruct (Fs.relative_to p a) as [rest|e] eqn:Hrel.
    + split; [intros _|done]. exists a. split; [left|].
      apply relative_to_ok. eauto.
    + rewrite IH. split.
      * intros (r & Hr & Hp). exists r. split; [by right|done].
      * intros (r & Hr & Hp). apply elem_of_cons in Hr as [->|Hr]; [|eauto].
        apply relative_to_ok in Hp as [rest Hrest]. congruence.
Qed.

(** C3. When the canonical form of a path is an allowed root or lies
    under one, [is_path_allowed] returns [True]; when it lies under no
    allowed root -- as for a path whose [..] segments lead out of every
    root -- it returns [False]. *)
Theorem path_allowed_iff_under_root (resolve : string → result Fs.path)
    (s : SecurityShield) (p : string) (q : Fs.path) :
  resolve p = Ok q →
  ((∃ r, r ∈ allowed_paths s ∧ r `prefix_of` q) →
   is_path_allowed resolve s p = Ok true)
  ∧ ((∀ r, r ∈ allowed_paths s → ¬ r `prefix_of` q) →
     is_path_allowed resolve s p = Ok false).
Proof.
  intros Hq. unfold is_path_allowed. rewrite Hq. simpl. split.
  - intros (r & Hr & Hp). f_equal. apply under_some_spec.
    exists r. split; [by apply elem_of_elements|done].
  - intros Hnone. f_equal. apply not_true_is_false.
    intros (r & Hr & Hp)%under_some_spec.
    apply (Hnone r); [by apply elem_of_elements|done].
Qed.

Lemma path_allowed_iff_under_root_witness :
  Scenario.resolve "/tmp/../../etc/passwd" = Ok ["/"; "etc"; "passwd"]
  ∧ is_path_allowed Scenario.resolve Scenario.shield_tmp "/tmp/../../etc/passwd"
    = Ok false
  ∧ is_path_allowed Scenario.resolve Scenario.shield_tmp "/tmp/a/../b"
    = Ok true.
Proof.
  split; [reflexivity|]. split.
  - apply (path_allowed_iff_under_root _ _ _ ["/"; "etc"; "passwd"]);
      [reflexivity|].
    intros r Hr [k Hk].
    apply elem_of_union in Hr as [Hr|Hr]; [|by apply elem_of_empty in Hr].
    apply elem_of_singleton in Hr. subst r. discriminate.
  - apply (path_allowed_iff_under_root _ _ _ ["/"; "tmp"; "b"]);
      [reflexivity|].
    exists ["/"; "tmp"]. split; [|by exists ["b"]].
    apply elem_of_union_l, elem_of_singleton. reflexivity.
Defined.

(** ** The script validator *)

Import Validator.

(** ** Walking the syntax tree *)

Lemma size_children (n : node) :
  size n = S (list_sum (map size (iter_child_nodes n))).
Proof.
  destruct n as [names|module names|name|func args kws|id|value attr|value|children];
    simpl; try done.
  - f_equal. induction names as [|a names IH]; simpl; [done|]. by f_equal.
  - f_equal. induction names as [|a names IH]; simpl; [done|]. by f_equal.
  - by rewrite map_app, list_sum_app, Nat.add_assoc.
Qed.

(** The steps [walk] allows are enough: with a step for each node of the
    queue, the walk ends on the empty queue, having yielded them all. *)
Lemma walk_go_all (steps : nat) (todo : list node) :
  list_sum (map size todo) ≤ steps →
  length (walk_go steps todo) = list_sum (map size todo)
  ∧ walk_go (S steps) todo = walk_go steps todo.
Proof.
  revert todo. induction steps as [|steps IH]; intros todo Hle.
  - destruct todo as [|n todo]; [done|].
    simpl in Hle. rewrite size_children in Hle. lia.
  - destruct todo as [|n todo]; [done|].
    assert (list_sum (map size (todo ++ iter_child_nodes n)) ≤ steps) as Hle'.
    { simpl in Hle. rewrite size_children in Hle.
      rewrite map_app, list_sum_app. lia. }
    destruct (IH _ Hle') as [Hlen Hstep].
    split.
    + cbn [walk_go length]. rewrite Hlen. simpl.
      rewrite size_children, map_app, list_sum_app. lia.
    + change (n :: walk_go (S steps) (todo ++ iter_child_nodes n)
              = n :: walk_go steps (todo ++ iter_child_nodes n)).
      by rewrite Hstep.
Qed.

Lemma walk_all (tree : node) : length (walk tree) = size tree.
Proof.
  unfold walk. destruct (walk_go_all (size tree) [tree]) as [H _].
  - simpl. lia.
  - rewrite H. simpl. lia.
Qed.

(** ** What the validator answers *)

(** Every call of the name [open] is reported by [_check_function_call],
    whatever its arguments. *)
Lemma check_function_call_open args kws :
  check_function_call (Call (Name "open") args kws)
  = ["Dangerous builtin call: open()"].
Proof. reflexivity. Qed.

(** C6, as the code has it.  With a shield attached that allows [/tmp],
    the script [open('/tmp/notes.txt')] opens an allowed path, and the
    validator still reports it unsafe: the call of [open] is a violation
    by its name alone. *)
Theorem open_on_allowed_path_is_flagged :
  is_path_allowed Scenario.resolve Scenario.shield_tmp "/tmp/notes.txt" = Ok true
  ∧ ∃ v', validate_python_code Scenario.resolve Scenario.parse
            Scenario.validator_tmp "open('/tmp/notes.txt')"
          = Ok ((false, ["Dangerous builtin call: open()"]), v').
Proof. split; [reflexivity|]. eexists. reflexivity. Qed.

(** ** The approval gate: the cache *)

Lemma require_approval_keeps (m : ApprovalManager) (w : console)
    action context callback r m' w' a :
  require_approval m w action context callback = (r, m', w') →
  auto_approve m' = auto_approve m
  ∧ (a ∈ approved_actions m → a ∈ approved_actions m').
Proof.
  unfold require_approval.
  destruct (auto_approve m) eqn:Hauto; [by intros [= <- <- <-]|].
  destruct (bool_decide _); [by intros [= <- <- <-]|].
  destruct (ask w) as [[approved|e] w1]; [|by intros [= <- <- <-]].
  assert (∀ m1 : ApprovalManager,
            m1 = (if approved then
                    {| auto_approve := auto_approve m;
                       approved_actions := {[ action ]} ∪ approved_actions m;
                       approval_history :=
                         approval_history m
                         ++ [{| entry_action := action;
                                entry_context := context;
                                entry_timestamp := None;
                                entry_approved := true |}] |}
                  else m) →
            auto_approve m1 = auto_approve m
            ∧ (a ∈ approved_actions m → a ∈ approved_actions m1)) as Hm.
  { intros m1 ->. destruct approved; simpl; [|done].
    split; [done|]. intros ?. by apply elem_of_union_r. }
  destruct callback as [cb|]; [destruct (cb approved)|];
    intros [= <- <- <-]; rewrite Hauto in *; by apply Hm.
Qed.

Lemma require_approval_true (m : ApprovalManager) (w : console)
    action context callback m' w' :
  require_approval m w action context callback = (Ok true, m', w') →
  auto_approve m' = true ∨ action ∈ approved_actions m'.
Proof.
  unfold require_approval.
  destruct (auto_approve m) eqn:Hauto; [intros [= <- <-]; by left|].
  destruct (bool_decide _) eqn:Hin;
    [intros [= <- <-]; right; by apply bool_decide_eq_true in Hin|].
  destruct (ask w) as [[approved|e] w1]; [|discriminate].
  destruct approved.
  - destruct callback as [cb|]; [destruct (cb true)|];
      intros [= <- <-]; right; simpl; by apply elem_of_union_l, elem_of_singleton.
  - destruct callback as [cb|]; [destruct (cb false)|]; discriminate.
Qed.

Lemma require_approval_cached (m : ApprovalManager) (w : console)
    action context callback :
  auto_approve m = true ∨ action ∈ approved_actions m →
  require_approval m w action context callback = (Ok true, m, w).
Proof.
  unfold require_approval. intros [->|Hin]; [done|].
  destruct (auto_approve m); [done|]. by rewrite bool_decide_eq_true_2.
Qed.

Lemma session_keeps (rs : list request) (m : ApprovalManager) (w : console) a :
  auto_approve m = true ∨ a ∈ approved_actions m →
  auto_approve (session m w rs).1 = true
  ∨ a ∈ approved_actions (session m w rs).1.
Proof.
  revert m w. induction rs as [|r rs IH]; intros m w H; simpl; [done|].
  destruct (require_approval m w _ _ _) as [[res m'] w'] eqn:Hreq.
  apply IH. eapply (require_approval_keeps _ _ _ _ _ _ _ _ a) in Hreq as [Ha Hk].
  destruct H as [H|H]; [left; congruence|right; auto].
Qed.

(** C7. Once [require_approval] has returned [True] for an action, every
    later call for the same action string, after any other requests of the
    session, returns [True] and leaves the manager and the console as they
    are: no prompt is shown, no callback runs. *)
Theorem approval_is_cached (m : ApprovalManager) (w : console)
    (action : string) (context : option string)
    (callback : option (bool → result unit))
    (m1 : ApprovalManager) (w1 : console) :
  require_approval m w action context callback = (Ok true, m1, w1) →
  ∀ (rs : list request) context' callback',
    require_approval (session m1 w1 rs).1 (session m1 w1 rs).2
      action context' callback'
    = (Ok true, (session m1 w1 rs).1, (session m1 w1 rs).2).
Proof.
  intros H rs context' callback'.
  apply require_approval_cached, session_keeps.
  by eapply require_approval_true.
Qed.

Lemma approval_is_cached_witness :
  ∃ m1 w1,
    require_approval (Approval.init false) Scenario.console_yes
      "rm -rf build" None None = (Ok true, m1, w1)
    ∧ prompts w1 = 1
    ∧ require_approval m1 w1 "rm -rf build" (Some "again") None
      = (Ok true, m1, w1).
Proof.
  eexists _, _. split; [reflexivity|]. split; [reflexivity|].
  exact (approval_is_cached (Approval.init false) Scenario.console_yes
           "rm -rf build" None None _ _ eq_refl [] (Some "again") None).
Defined.


(** ** The self-healing executor *)

Import Orchestrator.

Lemma contains_not_found_of_command error_lower :
  PyStr.contains "command not found" error_lower = true →
  PyStr.contains "not found" error_lower = true.
Proof. apply (contains_suffix "command " "not found"). Qed.

(** Only a "permission denied" error changes the arguments: the branch
    for "command not found" stands behind the test for "not found" and is
    never reached. *)
Lemma propose_error_fix_unchanged tool_name (tool_args : gmap string string) error :
  PyStr.contains "permission denied" (PyStr.lower error) = false →
  propose_error_fix tool_name tool_args error = tool_args.
Proof.
  intros Hperm. unfold propose_error_fix. rewrite Hperm.
  destruct (PyStr.contains "no such file" _); [done|].
  destruct (PyStr.contains "not found" _) eqn:Hnf; [done|]. simpl.
  destruct (PyStr.contains "command not found" _) eqn:Hcnf; [|done].
  apply contains_not_found_of_command in Hcnf. congruence.
Qed.

(** C4, as the code has it.  For the error "command not found: python"
    the proposed arguments are the arguments that failed, not a command on
    [python3]; so on a machine where [python3] would run, the retries call
    [python] again and again until the call stack is used up, and
    [python3] is never tried. *)
Theorem command_not_found_keeps_python :
  propose_error_fix "execute_command" Scenario.python_script
    "command not found: python" = Scenario.python_script
  ∧ (∀ tool_name (tool_args : gmap string string) detail,
       propose_error_fix tool_name tool_args ("command not found: " +:+ detail)
       = tool_args
       ∨ PyStr.contains "permission denied"
           (PyStr.lower ("command not found: " +:+ detail)) = true)
  ∧ (execute_tool 40 Scenario.orchestrator Scenario.quiet
       "execute_command" Scenario.python_script).1 = Raise RecursionError
  ∧ Forall (λ call, call = ("execute_command", Scenario.python_script))
      (calls (execute_tool 40 Scenario.orchestrator Scenario.quiet
                "execute_command" Scenario.python_script).2).
Proof.
  split; [by apply propose_error_fix_unchanged|]. split.
  - intros tool_name tool_args detail.
    destruct (PyStr.contains "permission denied" _) eqn:Hperm; [by right|].
    left. by apply propose_error_fix_unchanged.
  - split; [by vm_compute|]. apply (bool_decide_unpack _). by vm_compute.
Qed.

(** A tool that raises at every call is called again at every second
    level of the call stack, with the attempt number back at 1 each time:
    the number of calls is bounded by the stack only, and the answer is the
    [RecursionError], never the result that reports the retries as used
    up. *)
Lemma always_raising_calls (o : PyOSOrchestrator) (name : string)
    (tool_func : tool) (msg : string) :
  tools o !! name = Some tool_func →
  (∀ args n, tool_func args n = Throws msg) →
  1 ≤ max_retries o →
  PyStr.contains "permission denied" (PyStr.lower msg) = false →
  ∀ depth w args,
    (execute_tool depth o w name args).1 = Raise RecursionError
    ∧ length (calls (execute_tool depth o w name args).2)
      = length (calls w) + Nat.div2 (S depth).
Proof.
  intros Htool Hthrows Hretries Hperm depth.
  induction depth as [depth IH] using lt_wf_ind. intros w args.
  destruct depth as [|[|depth]].
  - simpl. split; [done|lia].
  - simpl. rewrite Htool, Hthrows. simpl. rewrite length_app. simpl.
    split; [done|lia].
  - cbn [execute_tool]. rewrite Htool, Hthrows.
    cbn [analyze_and_retry_tool].
    assert ((max_retries o <? 1) = false) as -> by (apply Nat.ltb_ge; lia).
    rewrite propose_error_fix_unchanged by done.
    fold execute_tool.
    assert (depth < S (S depth)) as Hlt by lia.
    destruct (IH depth Hlt (called w name args) args) as [Hres Hlen].
    destruct (execute_tool depth o (called w name args) name args)
      as [[r|e] w'] eqn:Hexec; simpl in Hres, Hlen; [discriminate|].
    simpl. split; [done|].
    rewrite Hlen. unfold called. simpl. rewrite length_app. simpl. lia.
Qed.

(** C2, as the code has it.  With [max_retries = 2] and a tool that raises
    at every call, the tool is not called 3 times but as often as the call
    stack allows, and what comes back is the [RecursionError]: for every
    depth of the stack, half as many calls as there are levels. *)
Theorem retries_unbounded_when_tool_raises (depth : nat) :
  max_retries Scenario.orchestrator = 2
  ∧ (execute_tool depth Scenario.orchestrator Scenario.quiet
       "always_raises" ∅).1 = Raise RecursionError
  ∧ length (calls (execute_tool depth Scenario.orchestrator Scenario.quiet
                     "always_raises" ∅).2) = Nat.div2 (S depth).
Proof.
  split; [reflexivity|].
  apply (always_raising_calls Scenario.orchestrator "always_raises"
           Scenario.always_raises "boom"); try done.
  simpl. lia.
Qed.

(** Where the bound does hold: when the retried calls return a failed
    result instead of raising, the attempts are counted, and with
    [max_retries = 2] the tool is called 3 times before the result that
    reports the failure as permanent. *)
Lemma retries_bounded_when_retry_returns :
  execute_tool 20 Scenario.orchestrator Scenario.quiet "raises_once" ∅
  = (Ok (Scenario.failed "Falha permanente apos 2 tentativas: still failing"),
     {| calls := replicate 3 ("raises_once", ∅); lessons := [] |}).
Proof. by vm_compute. Qed.

(** And when the tool went through [register_tool], nothing is retried at
    all: the wrapper turns what the function raises into a failed result,
    [_execute_tool] hands that result back after the one call. *)
Lemma registered_tool_failure_not_retried (o : PyOSOrchestrator)
    (name : string) (func : tool) (depth : nat) (w : world)
    (args : gmap string string) (msg : string) :
  func args (length (calls w)) = Throws msg →
  execute_tool (S depth) (register_tool o name func) w name args
  = (Ok (plain_result false (Text "") (Some msg)), called w name args).
Proof.
  intros Hf. cbn [execute_tool register_tool tools].
  rewrite lookup_insert_eq. unfold wrap_tool_with_security. by rewrite Hf.
Qed.

(** ** The action ledger *)

Section Ledger.

Variable call_model : PyOSOrchestrator → string → list event → result decision.
Variable depth : nat.

Lemma log_action_appends o kind name ok validated info :
  action_log (log_action o kind name ok validated info)
  = action_log o
    ++ [{| iteration := iteration_count o; action_type := kind;
           tool_name := name; security_validated := validated;
           log_success := ok; details := info |}]
  ∧ iteration_count (log_action o kind name ok validated info)
    = iteration_count o.
Proof. done. Qed.

(** When the lines that log a tool's result run through, the result has
    both attributes they read, and the entry is of kind
    "tool_execution". *)
Lemma log_tool_result_ok o name r o1 :
  log_tool_result o name r = Ok o1 →
  ∃ seconds validated shown,
    attr_execution_time r = Some seconds
    ∧ attr_security_validated r = Some validated
    ∧ o1 = log_action o "tool_execution" (Some name) (success r) validated
             [("output", shown); ("error", default "None" (error r));
              ("execution_time", seconds)].
Proof.
  unfold log_tool_result, get_execution_time, get_security_validated.
  destruct (attr_execution_time r) as [seconds|],
    (attr_security_validated r) as [validated|], (success r),
    (output r) as [s|type_name b shown];
    cbn [rbind len slice100 truth];
    repeat match goal with
           | |- context [if ?b then _ else _] =>
               destruct b; cbn [rbind len slice100 truth]
           end;
    try discriminate;
    intros [= <-]; by eexists _, _, _.
Qed.

(** One pass of the loop body writes one entry, behind those that are
    there, and counts one iteration. *)
Lemma iterate_appends o w objective messages :
  ∃ entry,
    action_log (iterate call_model depth o w objective messages).1.2
    = action_log o ++ [entry]
    ∧ iteration_count (iterate call_model depth o w objective messages).1.2
      = S (iteration_count o).
Proof.
  unfold iterate, on_error.
  destruct (call_model _ _ _) as [response|e]; [|by eexists].
  destruct (done response); [by eexists|].
  match goal with |- context [if ?b then _ else _] => destruct b end;
    [by eexists|].
  destruct (execute_tool _ _ _ _ _) as [[tool_result|e] w']; [|by eexists].
  destruct (log_tool_result _ _ tool_result) as [o1|e] eqn:Hlog; [|by eexists].
  apply log_tool_result_ok in Hlog as (seconds & validated & shown & _ & _ & ->).
  by eexists.
Qed.

Lemma loop_extends remaining o w objective messages :
  ∃ entries,
    action_log (loop call_model depth remaining o w objective messages).1.2
    = action_log o ++ entries
    ∧ iteration_count (loop call_model depth remaining o w objective messages).1.2
      = iteration_count o + length entries
    ∧ length entries ≤ remaining.
Proof.
  revert o w messages.
  induction remaining as [|remaining IH]; intros o w messages; simpl.
  - exists []. rewrite app_nil_r. simpl. split; [done|]. split; lia.
  - destruct (iterate_appends o w objective messages) as (entry & Hlog & Hcount).
    destruct (iterate call_model depth o w objective messages)
      as [[[messages'|r] o'] w']; simpl in Hlog, Hcount.
    + destruct (IH o' w' messages') as (entries & Hlog' & Hcount' & Hlen).
      exists (entry :: entries). rewrite Hlog', Hcount', Hlog, Hcount.
      rewrite <- app_assoc. simpl. split; [done|]. split; lia.
    + exists [entry]. simpl. rewrite Hlog, Hcount. split; [done|]. split; lia.
Qed.

(** C8. [_log_action] puts one entry behind the entries that are there;
    a pass of the loop body does that once; the loop, however long it
    runs, only adds to the end of the ledger it started with; and
    [execute_objective] empties the ledger before the first pass, so that
    at its end the ledger holds one entry for each iteration of this run
    and nothing else.  (Running a tool or retrying it does not reach the
    ledger at all: [execute_tool] takes the orchestrator and gives none
    back.) *)
Theorem ledger_is_append_only :
  (∀ o kind name ok validated info,
     ∃ entry, action_log (log_action o kind name ok validated info)
              = action_log o ++ [entry])
  ∧ (∀ o w objective messages,
       ∃ entry,
         action_log (iterate call_model depth o w objective messages).1.2
         = action_log o ++ [entry])
  ∧ (∀ remaining o w objective messages,
       action_log o
       `prefix_of`
       action_log (loop call_model depth remaining o w objective messages).1.2)
  ∧ (∀ o, action_log (begin_objective o) = [])
  ∧ (∀ o w objective,
       let o' := (execute_objective call_model depth o w objective).1.2 in
       length (action_log o') = iteration_count o'
       ∧ iteration_count o' ≤ max_iterations o).
Proof.
  split; [intros; by eexists|].
  split.
  { intros o w objective messages.
    destruct (iterate_appends o w objective messages) as (entry & H & _). eauto. }
  split.
  { intros remaining o w objective messages.
    destruct (loop_extends remaining o w objective messages) as (entries & H & _).
    rewrite H. by apply prefix_app_r. }
  split; [done|].
  intros o w objective. unfold execute_objective. simpl.
  destruct (loop_extends (max_iterations o - 0) (begin_objective o) w objective [])
    as (entries & Hlog & Hcount & Hlen).
  rewrite Hlog, Hcount. simpl. split; lia.
Qed.

End Ledger.

(** * Further properties *)

(** ** Words, [strip] and [split] *)

Section WordFacts.

Implicit Types s t w pad cur : string.

Lemma no_space_lower s : Words.no_space (PyStr.lower s) = Words.no_space s.
Proof.
  induction s as [|c s IH]; [done|]. simpl. by rewrite is_space_lower, IH.
Qed.

Lemma no_space_app s t :
  Words.no_space (s +:+ t) = Words.no_space s && Words.no_space t.
Proof.
  induction s as [|c s IH]; [done|]. rewrite ?sapp_cons. simpl.
  by rewrite IH, andb_assoc.
Qed.

Lemma truthy_lower s : PyStr.truthy (PyStr.lower s) = PyStr.truthy s.
Proof. by destruct s. Qed.

Lemma is_word_lower s : Words.is_word (PyStr.lower s) = Words.is_word s.
Proof. unfold Words.is_word. by rewrite truthy_lower, no_space_lower. Qed.

Lemma lstrip_pad pad s :
  PyStr.all_space pad = true → PyStr.lstrip (pad +:+ s) = PyStr.lstrip s.
Proof.
  induction pad as [|c pad IH]; [done|]. simpl.
  intros [Hc Hp]%andb_true_iff. rewrite ?sapp_cons. simpl. rewrite Hc. auto.
Qed.

Lemma lstrip_word w s :
  Words.is_word w = true → PyStr.lstrip (w +:+ s) = w +:+ s.
Proof.
  destruct w as [|c w]; [done|]. unfold Words.is_word. simpl.
  intros [Hc _]%andb_true_iff. rewrite ?sapp_cons. simpl.
  apply negb_true_iff in Hc. by rewrite Hc.
Qed.

Lemma rstrip_all_space pad : PyStr.all_space pad = true → PyStr.rstrip pad = "".
Proof.
  induction pad as [|c pad IH]; [done|]. simpl.
  intros [Hc Hp]%andb_true_iff. by rewrite IH, Hc.
Qed.

Lemma rstrip_pad s pad :
  PyStr.all_space pad = true → PyStr.rstrip (s +:+ pad) = PyStr.rstrip s.
Proof.
  intros Hp. induction s as [|c s IH]; [by apply rstrip_all_space|].
  rewrite ?sapp_cons. simpl. by rewrite IH.
Qed.

Lemma rstrip_no_space w : Words.no_space w = true → PyStr.rstrip w = w.
Proof.
  induction w as [|c w IH]; [done|]. simpl.
  intros [Hc Hw]%andb_true_iff. rewrite IH by done.
  apply negb_true_iff in Hc. rewrite Hc. by destruct w.
Qed.

(** Stripping a padded word gives the word. *)
Lemma strip_padded pad1 w pad2 :
  PyStr.all_space pad1 = true → Words.is_word w = true →
  PyStr.all_space pad2 = true →
  PyStr.strip (pad1 +:+ w +:+ pad2) = w.
Proof.
  intros H1 Hw H2. unfold PyStr.strip.
  rewrite lstrip_pad, lstrip_word, rstrip_pad by done.
  apply rstrip_no_space. unfold Words.is_word in Hw.
  by apply andb_true_iff in Hw as [_ ?].
Qed.

Lemma split_go_all_space cur pad :
  PyStr.all_space pad = true →
  PyStr.split_go cur pad = match cur with "" => [] | _ => [cur] end.
Proof.
  revert cur. induction pad as [|c pad IH]; intros cur; [done|]. simpl.
  intros [Hc Hp]%andb_true_iff. rewrite Hc.
  destruct cur; by rewrite IH.
Qed.

Lemma split_go_cons cur c s :
  PyStr.split_go cur (String c s)
  = if PyStr.is_space c then
      match cur with
      | "" => PyStr.split_go "" s
      | _ => cur :: PyStr.split_go "" s
      end
    else PyStr.split_go (cur +:+ String c "") s.
Proof. done. Qed.

Lemma split_go_rstrip cur s :
  PyStr.split_go cur (PyStr.rstrip s) = PyStr.split_go cur s.
Proof.
  revert cur. induction s as [|c s IH]; intros cur; [done|].
  cbn [PyStr.rstrip].
  destruct (PyStr.rstrip s) as [|d r] eqn:Hr.
  - apply rstrip_nil in Hr. rewrite (split_go_cons cur c s).
    destruct (PyStr.is_space c) eqn:Hc.
    + rewrite !split_go_all_space by done. by destruct cur.
    + rewrite split_go_cons, Hc, !split_go_all_space by done. done.
  - rewrite (split_go_cons cur c (String d r)), (split_go_cons cur c s).
    destruct (PyStr.is_space c); [destruct cur|]; by rewrite IH.
Qed.

Lemma split_lstrip s : PyStr.split (PyStr.lstrip s) = PyStr.split s.
Proof.
  unfold PyStr.split. induction s as [|c s IH]; [done|]. simpl.
  destruct (PyStr.is_space c) eqn:Hc; [done|]. simpl. by rewrite Hc.
Qed.

(** Stripping first changes nothing for [split()]. *)
Lemma split_strip s : PyStr.split (PyStr.strip s) = PyStr.split s.
Proof.
  unfold PyStr.strip, PyStr.split at 1. rewrite split_go_rstrip.
  apply split_lstrip.
Qed.

Lemma split_go_word cur w s :
  Words.no_space w = true →
  PyStr.split_go cur (w +:+ s) = PyStr.split_go (cur +:+ w) s.
Proof.
  revert cur. induction w as [|c w IH]; intros cur; simpl.
  - by rewrite sapp_nil_r.
  - intros [Hc Hw]%andb_true_iff. apply negb_true_iff in Hc.
    rewrite ?sapp_cons. simpl. rewrite Hc, IH by done.
    by rewrite sapp_assoc.
Qed.

(** The first word of a text that opens with a word. *)
Lemma split_word_first w tail :
  Words.is_word w = true → Words.starts_blank tail = true →
  ∃ rest, PyStr.split (w +:+ tail) = w :: rest.
Proof.
  unfold Words.is_word. intros [Hne Hw]%andb_true_iff Ht.
  unfold PyStr.split. rewrite split_go_word by done. rewrite sapp_nil_l.
  destruct tail as [|c tail]; simpl.
  - exists []. by destruct w.
  - simpl in Ht. rewrite Ht. destruct w; [done|]. eauto.
Qed.

(** Every piece [split()] yields is a word. *)
Lemma split_go_words cur s tok :
  Words.no_space cur = true → tok ∈ PyStr.split_go cur s →
  Words.is_word tok = true.
Proof.
  revert cur. induction s as [|c s IH]; intros cur Hcur; simpl.
  - destruct cur as [|d cur]; [by intros ?%elem_of_nil|].
    intros ->%list_elem_of_singleton. unfold Words.is_word. by rewrite Hcur.
  - destruct (PyStr.is_space c) eqn:Hc.
    + destruct cur as [|d cur]; [by apply IH|].
      intros [->|Hin]%elem_of_cons.
      * unfold Words.is_word. by rewrite Hcur.
      * by apply (IH "").
    + apply IH. rewrite no_space_app, Hcur. simpl. by rewrite Hc.
Qed.

Lemma split_words s tok : tok ∈ PyStr.split s → Words.is_word tok = true.
Proof. by apply split_go_words. Qed.

End WordFacts.

(** ** The allow list of commands *)

Lemma not_blocked_same_patterns (s s' : SecurityShield) text :
  blocked_patterns s' = blocked_patterns s →
  existsb (λ pattern, Re.search Re.exact pattern text) (blocked_patterns s')
  = existsb (λ pattern, Re.search Re.exact pattern text) (blocked_patterns s).
Proof. by intros ->. Qed.

(** X1. What [add_allowed_command] has stored is matched by the first
    word of a command, whatever the case and whatever padding the name was
    given with: after allowing a padded word [w], a command that opens
    with a word of the same lower-case form and that no blocked pattern
    hits is allowed. *)
Theorem allowed_by_first_word (s s' : SecurityShield)
    (pad1 w pad2 w' tail : string) :
  PyStr.all_space pad1 = true → Words.is_word w = true →
  PyStr.all_space pad2 = true →
  add_allowed_command s (pad1 +:+ w +:+ pad2) = Ok s' →
  PyStr.lower w' = PyStr.lower w → Words.starts_blank tail = true →
  existsb (λ pattern, Re.search Re.exact pattern (PyStr.lower (w' +:+ tail)))
    (blocked_patterns s) = false →
  is_command_allowed s' (w' +:+ tail) = Ok true.
Proof.
  intros Hp1 Hw Hp2 Hadd Hlow Htail Hfree.
  unfold add_allowed_command in Hadd.
  destruct (negb _); [discriminate|]. injection Hadd as <-.
  rewrite strip_padded by done.
  assert (Words.is_word w' = true) as Hw'.
  { by rewrite <- is_word_lower, Hlow, is_word_lower. }
  unfold is_command_allowed.
  assert (PyStr.truthy (w' +:+ tail) = true) as ->.
  { destruct w'; [done|]. by rewrite sapp_cons. }
  cbn [negb]. rewrite split_strip.
  destruct (split_word_first w' tail Hw' Htail) as [rest ->].
  cbn [blocked_patterns]. rewrite Hfree. f_equal.
  apply bool_decide_eq_true. cbn [allowed_commands]. rewrite Hlow.
  apply elem_of_union_l. by apply elem_of_singleton.
Qed.

Lemma allowed_by_first_word_witness :
  add_allowed_command Security.init "  LS " = Ok (Scenario.or_init (add_allowed_command Security.init "  LS "))
  ∧ is_command_allowed (Scenario.or_init (add_allowed_command Security.init "  LS "))
      "ls -la /tmp" = Ok true.
Proof.
  split; [reflexivity|].
  apply (allowed_by_first_word Security.init _ "  " "LS" " " "ls" " -la /tmp");
    reflexivity.
Defined.

(** X2. An entry whose stripped name is not one word -- two words, or
    nothing but white space -- is stored but never matched: every command
    is answered as before the entry was added. *)
Theorem entry_that_is_no_word_allows_nothing (s s' : SecurityShield)
    (name : string) :
  add_allowed_command s name = Ok s' →
  Words.is_word (PyStr.strip name) = false →
  ∀ command, is_command_allowed s' command = is_command_allowed s command.
Proof.
  intros Hadd Hname command. unfold add_allowed_command in Hadd.
  destruct (negb _); [discriminate|]. injection Hadd as <-.
  unfold is_command_allowed. destruct (negb _); [done|].
  destruct (PyStr.split (PyStr.strip command)) as [|tok toks] eqn:Hsplit; [done|].
  cbn [blocked_patterns allowed_commands]. destruct (existsb _ _); [done|].
  f_equal. apply bool_decide_ext.
  assert (Words.is_word tok = true) as Htok.
  { apply (split_words (PyStr.strip command)). rewrite Hsplit. left. }
  rewrite elem_of_union, elem_of_singleton. split; [|by right].
  intros [Heq|?]; [|done].
  rewrite <- is_word_lower, <- Heq, is_word_lower in Hname. congruence.
Qed.

Lemma entry_that_is_no_word_allows_nothing_witness :
  is_command_allowed
    (Scenario.or_init (add_allowed_command Security.init "git status")) "git status"
  = is_command_allowed Security.init "git status".
Proof.
  apply (entry_that_is_no_word_allows_nothing Security.init _ "git status");
    reflexivity.
Defined.

(** X3. Allowing a name a second time, in another case or with other
    padding, leaves the shield as it is. *)
Theorem add_allowed_command_twice (s s1 : SecurityShield) (a b : string) :
  add_allowed_command s a = Ok s1 →
  PyStr.truthy b = true →
  PyStr.lower (PyStr.strip b) = PyStr.lower (PyStr.strip a) →
  add_allowed_command s1 b = Ok s1.
Proof.
  intros Hadd Hb Hsame. unfold add_allowed_command in *.
  destruct (negb (PyStr.truthy a)); [discriminate|]. injection Hadd as <-.
  rewrite Hb. cbn [negb allowed_commands allowed_paths blocked_patterns].
  rewrite Hsame. do 2 f_equal.
  by rewrite (assoc_L (∪)), (idemp_L (∪)).
Qed.

Lemma add_allowed_command_twice_witness :
  add_allowed_command (Scenario.or_init (add_allowed_command Security.init "ls")) " LS  "
  = Ok (Scenario.or_init (add_allowed_command Security.init "ls")).
Proof.
  apply (add_allowed_command_twice Security.init _ "ls" " LS  "); reflexivity.
Defined.

(** X4. Allowing one more command takes nothing away and opens nothing
    that a pattern blocks: what was allowed stays allowed, what raised
    still raises, and a command hit by a blocked pattern is still
    refused. *)
Theorem add_allowed_command_monotone (s s' : SecurityShield)
    (name command : string) :
  add_allowed_command s name = Ok s' →
  (is_command_allowed s command = Ok true →
   is_command_allowed s' command = Ok true)
  ∧ (∀ e, is_command_allowed s command = Raise e →
          is_command_allowed s' command = Raise e)
  ∧ (existsb
       (λ pattern, Re.search Re.exact pattern (PyStr.lower command))
       (blocked_patterns s) = true →
     is_command_allowed s' command ≠ Ok true).
Proof.
  intros Hadd. unfold add_allowed_command in Hadd.
  destruct (negb _); [discriminate|]. injection Hadd as <-.
  unfold is_command_allowed. cbn [blocked_patterns allowed_commands].
  destruct (negb _); [by repeat split|].
  destruct (PyStr.split _) as [|tok toks]; [by repeat split|].
  destruct (existsb _ _); [by repeat split|].
  split; [|by split].
  intros [= Hin]. f_equal. apply bool_decide_eq_true.
  apply bool_decide_eq_true in Hin. by apply elem_of_union_r.
Qed.

Lemma add_allowed_command_monotone_witness :
  is_command_allowed
    (Scenario.or_init (add_allowed_command Scenario.shield_rm "ls")) "rm x"
  = Ok true.
Proof.
  apply (add_allowed_command_monotone Scenario.shield_rm _ "ls" "rm x");
    reflexivity.
Defined.

(** ** The allow list of paths *)

(** X5. After [add_allowed_path(p)] the path [p] and every path that
    resolves to something under it are allowed, and every path that was
    allowed before still is. *)
Theorem add_allowed_path_allows (resolve : string → result Fs.path)
    (exists_ : Fs.path → bool) (s s' : SecurityShield) (p : string) :
  add_allowed_path resolve exists_ s p = Ok s' →
  is_path_allowed resolve s' p = Ok true
  ∧ (∀ q root target,
       resolve p = Ok root → resolve q = Ok target →
       root `prefix_of` target → is_path_allowed resolve s' q = Ok true)
  ∧ (∀ q, is_path_allowed resolve s q = Ok true →
          is_path_allowed resolve s' q = Ok true).
Proof.
  intros Hadd. unfold add_allowed_path in Hadd.
  destruct (resolve p) as [root|e] eqn:Hroot; [|discriminate]. simpl in Hadd.
  destruct (negb _); [discriminate|]. injection Hadd as <-.
  assert (Hunder : ∀ q target,
            resolve q = Ok target → root `prefix_of` target →
            is_path_allowed resolve
              {| allowed_commands := allowed_commands s;
                 allowed_paths := {[root]} ∪ allowed_paths s;
                 blocked_patterns := blocked_patterns s |} q = Ok true).
  { intros q target Hq Hpre. unfold is_path_allowed. rewrite Hq. simpl.
    f_equal. apply under_some_spec. exists root. split; [|done].
    apply elem_of_elements, elem_of_union_l. by apply elem_of_singleton. }
  split; [by apply (Hunder p root)|]. split.
  - intros q root' target [= <-]. apply Hunder.
  - intros q. unfold is_path_allowed.
    destruct (resolve q) as [target|e]; [|done]. simpl. intros [= Hq].
    f_equal. apply under_some_spec.
    apply under_some_spec in Hq as (r & Hr & Hpre). exists r. split; [|done].
    apply elem_of_elements. apply elem_of_elements in Hr.
    by apply elem_of_union_r.
Qed.

Lemma add_allowed_path_allows_witness :
  is_path_allowed Scenario.resolve Scenario.shield_tmp "/tmp" = Ok true.
Proof.
  refine (proj1 (add_allowed_path_allows Scenario.resolve Scenario.exists_
                   Security.init Scenario.shield_tmp "/tmp" _)).
  reflexivity.
Defined.

(** ** What the default patterns refuse *)

Lemma found_in_context acc r s pre post :
  Re.found acc r s → Re.found acc r (pre +:+ s +:+ post).
Proof.
  intros (s0 & s1 & s2 & -> & H). exists (pre +:+ s0), s1, (s2 +:+ post).
  split; [by rewrite !sapp_assoc|done].
Qed.

(** The argument of the first part once more, for a pattern known to be
    in the default catalog. *)
Lemma refused_when_found (s : SecurityShield) (command : string) (p : Re.regex) :
  blocked_patterns s = default_blocked_patterns →
  p ∈ default_blocked_patterns →
  Re.found Re.exact p (PyStr.lower command) →
  is_command_allowed s command = Ok false.
Proof.
  intros Hd Hp Hfound.
  assert (Re.needs_nonspace p = true) as Hneed.
  { pose proof default_patterns_shape as Hall.
    rewrite Forall_forall in Hall. by apply Hall. }
  assert (PyStr.all_space command = false) as Hc.
  { rewrite <- all_space_lower. by eapply needs_nonspace_found. }
  unfold is_command_allowed.
  destruct command as [|a c]; [discriminate|]. cbn [PyStr.truthy negb].
  pose proof (split_strip_nonspace _ Hc) as Hsplit.
  destruct (PyStr.split _) as [|tok toks]; [done|].
  rewrite Hd, (existsb_search _ _ p); [done|done|]. by apply search_spec.
Qed.

Lemma isspace_lower ws : PyStr.isspace (PyStr.lower ws) = PyStr.isspace ws.
Proof. destruct ws as [|c ws]; [done|]. simpl. by rewrite is_space_lower, all_space_lower. Qed.

Lemma star_spaces ws :
  PyStr.all_space ws = true →
  Re.matches Re.exact (Re.Star (Re.Atom Re.Space)) ws.
Proof.
  induction ws as [|c ws IH]; [constructor|]. simpl.
  intros [Hc Hws]%andb_true_iff.
  apply (Re.m_star_cons Re.exact _ (String c "") ws); [by constructor|auto].
Qed.

Lemma plus_spaces ws :
  PyStr.isspace ws = true →
  Re.matches Re.exact (Re.Plus (Re.Atom Re.Space)) ws.
Proof.
  destruct ws as [|c ws]; [done|]. simpl. intros [Hc Hws]%andb_true_iff.
  apply (Re.m_cat Re.exact _ _ (String c "") ws);
    [by constructor|by apply star_spaces].
Qed.

Lemma rm_rf_matches (p : Re.regex) (ws1 ws2 : string) :
  Re.compile "rm\s+-rf\s+/" = Some p →
  PyStr.isspace ws1 = true → PyStr.isspace ws2 = true →
  Re.matches Re.exact p ("rm" +:+ ws1 +:+ "-rf" +:+ ws2 +:+ "/").
Proof.
  intros [= <-] H1 H2.
  apply (Re.m_cat Re.exact _ _ "r" _); [by constructor|].
  apply (Re.m_cat Re.exact _ _ "m" _); [by constructor|].
  apply (Re.m_cat Re.exact _ _ ws1 _); [by apply plus_spaces|].
  apply (Re.m_cat Re.exact _ _ "-" _); [by constructor|].
  apply (Re.m_cat Re.exact _ _ "r" _); [by constructor|].
  apply (Re.m_cat Re.exact _ _ "f" _); [by constructor|].
  apply (Re.m_cat Re.exact _ _ ws2 _); [by apply plus_spaces|].
  apply (Re.m_cat Re.exact _ _ "/" ""); by constructor.
Qed.

(** X6. The spellings the default catalog refuses, on every shield that
    carries it and whatever is allowed: a command with "mkfs" anywhere in
    it, in any case, also inside a longer word; and a command with
    "rm", "-rf" and "/" in a row, in any case and with any white space
    between them. *)
Theorem destructive_spellings_refused (s : SecurityShield) :
  blocked_patterns s = default_blocked_patterns →
  (∀ pre k post,
     PyStr.lower k = "mkfs" →
     is_command_allowed s (pre +:+ k +:+ post) = Ok false)
  ∧ (∀ pre a ws1 b ws2 post,
       PyStr.lower a = "rm" → PyStr.isspace ws1 = true →
       PyStr.lower b = "-rf" → PyStr.isspace ws2 = true →
       is_command_allowed s (pre +:+ a +:+ ws1 +:+ b +:+ ws2 +:+ "/" +:+ post)
       = Ok false).
Proof.
  intros Hd. split.
  - intros pre k post Hk.
    assert (∃ p, Re.compile "mkfs" = Some p) as [p Hp] by by eexists.
    apply (refused_when_found s _ p Hd).
    { injection Hp as <-. right. left. }
    rewrite !lower_app, Hk. apply found_in_context.
    apply search_spec. by injection Hp as <-.
  - intros pre a ws1 b ws2 post Ha H1 Hb H2.
    assert (∃ p, Re.compile "rm\s+-rf\s+/" = Some p) as [p Hp] by by eexists.
    apply (refused_when_found s _ p Hd).
    { injection Hp as <-. left. }
    rewrite !lower_app, Ha, Hb.
    exists (PyStr.lower pre),
      ("rm" +:+ PyStr.lower ws1 +:+ "-rf" +:+ PyStr.lower ws2 +:+ "/"),
      (PyStr.lower post).
    split; [by rewrite !sapp_assoc|].
    apply rm_rf_matches; [done|by rewrite isspace_lower..].
Qed.

Lemma destructive_spellings_refused_witness :
  is_command_allowed Scenario.shield_rm "rm notes_on_MKFS.txt" = Ok false
  ∧ is_command_allowed Scenario.shield_rm "RM   -Rf /home" = Ok false.
Proof.
  destruct (destructive_spellings_refused Scenario.shield_rm eq_refl)
    as [Hmkfs Hrm].
  split.
  - exact (Hmkfs "rm notes_on_" "MKFS" ".txt" eq_refl).
  - exact (Hrm "" "RM" "   " "-Rf" " " "home" eq_refl eq_refl eq_refl eq_refl).
Defined.

(** ** The checked calls *)

Import Decorators.

(** X7. What a decorated function does when the command is not let
    through: for a command that is refused it raises
    [SecurityViolationError] with the command in the message, and the
    function is not run; but for a command of white space only the
    [IndexError] of the check comes out instead, which a handler for
    [SecurityViolationError] does not catch. *)
Theorem guarded_command_failures {A : Type} (s : SecurityShield)
    (func : string → result A) (command : string) :
  (is_command_allowed s command = Ok false →
   require_command_permission s func command
   = Raise (SecurityViolationError ("Comando nao permitido: " +:+ command)))
  ∧ (PyStr.isspace command = true →
     require_command_permission s func command
     = Raise (IndexError "list index out of range")
     ∧ validate_command s command
       = Raise (IndexError "list index out of range"))
  ∧ (is_command_allowed s command = Ok true →
     require_command_permission s func command = func command).
Proof.
  unfold require_command_permission, validate_command. split; [|split].
  - by intros ->.
  - intros [Hne Hall]%isspace_spec.
    assert (is_command_allowed s command
            = Raise (IndexError "list index out of range")) as ->; [|done].
    unfold is_command_allowed. destruct command; [done|].
    cbn [PyStr.truthy negb]. by rewrite split_strip_all_space.
  - by intros ->.
Qed.

Lemma guarded_command_failures_witness :
  require_command_permission Scenario.shield_rm (λ c, Ok c) "rm -rf /"
  = Raise (SecurityViolationError "Comando nao permitido: rm -rf /")
  ∧ require_command_permission Scenario.shield_rm (λ c, Ok c) "  "
    = Raise (IndexError "list index out of range").
Proof.
  split.
  - apply (guarded_command_failures Scenario.shield_rm (λ c, Ok c) "rm -rf /").
    reflexivity.
  - apply (guarded_command_failures Scenario.shield_rm (λ c, Ok c) "  ").
    reflexivity.
Defined.

(** ** What the validator finds, and what it misses *)

Import Validator Tree.

Lemma subnode_trans m c n : subnode m c → subnode c n → subnode m n.
Proof.
  intros Hmc Hcn. induction Hcn as [|n c' Hin _ IH]; [done|].
  by apply (sub_below m n c').
Qed.

Lemma subnode_child c n : c ∈ iter_child_nodes n → subnode c n.
Proof. intros H. apply (sub_below c n c); [done|constructor]. Qed.

(** [ast.walk] yields every node at or below one in the queue, and
    nothing else. *)
Lemma walk_go_complete (steps : nat) (todo : list node) :
  list_sum (map size todo) ≤ steps →
  ∀ n m, n ∈ todo → subnode m n → m ∈ walk_go steps todo.
Proof.
  revert todo. induction steps as [|steps IH]; intros todo Hle n m Hn Hm.
  - destruct todo as [|n0 todo]; [by apply elem_of_nil in Hn|].
    simpl in Hle. rewrite size_children in Hle. lia.
  - destruct todo as [|n0 todo]; [by apply elem_of_nil in Hn|].
    assert (list_sum (map size (todo ++ iter_child_nodes n0)) ≤ steps) as Hle'.
    { simpl in Hle. rewrite size_children in Hle.
      rewrite map_app, list_sum_app. lia. }
    cbn [walk_go]. apply elem_of_cons in Hn as [->|Hn].
    + destruct Hm as [|n0 c Hc Hm]; [left|right].
      apply (IH _ Hle' c); [|done]. apply elem_of_app. by right.
    + right. apply (IH _ Hle' n); [|done]. apply elem_of_app. by left.
Qed.

Lemma walk_go_sound (steps : nat) (todo : list node) (m : node) :
  m ∈ walk_go steps todo → ∃ n, n ∈ todo ∧ subnode m n.
Proof.
  revert todo. induction steps as [|steps IH]; intros todo; simpl.
  - by intros ?%elem_of_nil.
  - destruct todo as [|n0 todo]; [by intros ?%elem_of_nil|].
    intros [->|Hin]%elem_of_cons.
    + exists n0. split; [left|constructor].
    + destruct (IH _ Hin) as (n & Hn & Hm).
      apply elem_of_app in Hn as [Hn|Hn].
      * exists n. split; [by right|done].
      * exists n0. split; [left|]. by apply (sub_below m n0 n).
Qed.

Lemma walk_spec (tree m : node) : m ∈ walk tree ↔ subnode m tree.
Proof.
  unfold walk. split.
  - intros (n & Hn & Hm)%walk_go_sound.
    by apply list_elem_of_singleton in Hn as ->.
  - intros Hm.
    assert (list_sum (map size [tree]) ≤ size tree) as Hle by (simpl; lia).
    apply (walk_go_complete _ _ Hle tree m); [left|done].
Qed.

(** ** When the validator answers, and what *)






Section Findings.

Variable resolve : string → result Fs.path.
Variable parse : string → result node.

(** The violations are those found before and those of the nodes. *)
Lemma check_nodes_spec sh found nodes viol v :
  check_nodes resolve sh found nodes = Ok viol →
  v ∈ viol
  ↔ v ∈ found
    ∨ ∃ n, n ∈ nodes
        ∧ (v ∈ check_import n ∨ v ∈ check_function_call n
           ∨ ∃ more, check_builtin_call resolve sh n = Ok more ∧ v ∈ more).
Proof.
  revert found. induction nodes as [|n nodes IH]; intros found; simpl.
  - intros [= <-]. split; [by left|]. intros [?|(n & Hn & _)]; [done|].
    by apply elem_of_nil in Hn.
  - destruct (check_builtin_call resolve sh n) as [more|e] eqn:Hmore;
      [|discriminate]. simpl.
    intros Hrest. rewrite (IH _ Hrest), !elem_of_app. split.
    + intros [[[[?|?]|?]|?]|(n' & Hn' & H)]; [by left|right..].
      * exists n. split; [left|by left].
      * exists n. split; [left|by right; left].
      * exists n. split; [left|]. right; right. eauto.
      * exists n'. split; [by right|done].
    + intros [?|(n' & [->|Hn']%elem_of_cons & H)];
        [by left; left; left; left| |].
      * destruct H as [?|[?|(more' & Hmore' & ?)]];
          [by left; left; left; right|by left; left; right|].
        left. right. congruence.
      * right. eauto.
Qed.

(** What one node adds shows in the answer, wherever the node stands. *)
Lemma finding_is_reported (v : PythonASTValidator) code tree n msg safe viol v' :
  parse code = Ok tree → subnode n tree →
  msg ∈ check_import n ++ check_function_call n →
  validate_python_code resolve parse v code = Ok ((safe, viol), v') →
  safe = false ∧ msg ∈ viol.
Proof.
  intros Hparse Hsub Hmsg. unfold validate_python_code. rewrite Hparse.
  destruct (check_nodes _ _ _ _) as [found|e] eqn:Hcheck; [|discriminate].
  simpl. intros [= <- <- <-].
  assert (msg ∈ found) as Hin.
  { apply (check_nodes_spec _ _ _ _ msg Hcheck). right. exists n.
    split; [by apply walk_spec|]. apply elem_of_app in Hmsg as [?|?]; auto. }
  split; [|done]. destruct found; [by apply elem_of_nil in Hin|done].
Qed.

(** X8. A call by name of one of the builtins [eval], [exec], [compile],
    [open], [__import__], [globals], [locals] is reported wherever it
    stands in the script, however deep: the answer is unsafe and names
    the builtin. *)
Theorem builtin_call_found_anywhere (v : PythonASTValidator) (code : string)
    (tree : node) (id : string) (args kws : list node)
    (safe : bool) (viol : list string) (v' : PythonASTValidator) :
  parse code = Ok tree →
  subnode (Call (Name id) args kws) tree →
  id ∈ DANGEROUS_BUILTINS →
  validate_python_code resolve parse v code = Ok ((safe, viol), v') →
  safe = false ∧ ("Dangerous builtin call: " +:+ id +:+ "()") ∈ viol.
Proof.
  intros Hparse Hsub Hid. apply (finding_is_reported v code tree _ _ _ _ _ Hparse Hsub).
  apply elem_of_app. right. cbn [check_function_call].
  rewrite bool_decide_eq_true_2 by done. left.
Qed.

(** X9. [from m import x] is reported for every module [m] when [x] is
    one of [system], [popen], [call], [Popen] -- also for a module that
    has nothing to do with processes. *)
Theorem from_import_found_by_name (v : PythonASTValidator) (code : string)
    (tree : node) (m x : string) (names : list string)
    (safe : bool) (viol : list string) (v' : PythonASTValidator) :
  parse code = Ok tree →
  subnode (ImportFrom (Some m) names) tree →
  PyStr.truthy m = true → x ∈ names →
  x ∈ ["system"; "popen"; "call"; "Popen"] →
  validate_python_code resolve parse v code = Ok ((safe, viol), v') →
  safe = false ∧ ("Dangerous import: " +:+ m +:+ "." +:+ x) ∈ viol.
Proof.
  intros Hparse Hsub Hm Hx Hname.
  apply (finding_is_reported v code tree _ _ _ _ _ Hparse Hsub).
  apply elem_of_app. left. cbn [check_import]. rewrite Hm.
  apply list_elem_of_In, in_flat_map. exists x.
  split; [by apply list_elem_of_In|]. apply list_elem_of_In, elem_of_app. right.
  rewrite bool_decide_eq_true_2 by done. left.
Qed.

Lemma check_nodes_quiet sh nodes :
  (∀ n, n ∈ nodes → quiet resolve sh n) → check_nodes resolve sh [] nodes = Ok [].
Proof.
  induction nodes as [|n nodes IH]; intros Hq; simpl; [done|].
  destruct (Hq n) as (-> & -> & ->); [left|]. simpl.
  apply IH. intros n' Hn'. apply Hq. by right.
Qed.

(** X10. A module imported whole and used through its attributes is not
    seen: for a module name that is not itself in [DANGEROUS_IMPORTS]
    (as [os], [subprocess], [shutil] are not) and an attribute other than
    [__import__], [__class__], [__bases__], the script
    [import m; m.attr(constants...)] is answered safe, with no
    violation. *)
Theorem whole_module_use_is_not_found (v : PythonASTValidator) (code : string)
    (m attr : string) (args : list constant) :
  m ∉ DANGEROUS_IMPORTS →
  attr ∉ ["__import__"; "__class__"; "__bases__"] →
  parse code
  = Ok (Other [Import [m];
               Other [Call (Attribute (Name m) attr) (Constant <$> args) []]]) →
  ∃ v', validate_python_code resolve parse v code = Ok ((true, []), v').
Proof.
  intros Hm Hattr Hparse. unfold validate_python_code. rewrite Hparse.
  rewrite check_nodes_quiet; [simpl; eauto|].
  intros n Hn%walk_spec.
  assert (Hconst : ∀ c, subnode n (Constant c) → quiet resolve (shield v) n).
  { intros c H. inversion H as [|? ? Hin]; subst; [done|].
    by apply elem_of_nil in Hin. }
  assert (Hname : subnode n (Name m) → quiet resolve (shield v) n).
  { intros H. inversion H as [|? ? Hin]; subst; [done|].
    by apply elem_of_nil in Hin. }
  assert (Hattribute : subnode n (Attribute (Name m) attr) → quiet resolve (shield v) n).
  { intros H. inversion H as [|? c Hin Hc]; subst; [done|].
    apply list_elem_of_singleton in Hin as ->. auto. }
  assert (Hcall : subnode n (Call (Attribute (Name m) attr) (Constant <$> args) [])
                  → quiet resolve (shield v) n).
  { intros H. inversion H as [|? c Hin Hc]; subst.
    - split; [done|]. split; [|done]. cbn [check_function_call].
      by rewrite bool_decide_eq_false_2.
    - cbn [iter_child_nodes] in Hin. rewrite app_nil_r in Hin.
      apply elem_of_cons in Hin as [->|Hin]; [auto|].
      apply list_elem_of_fmap in Hin as (a & -> & _). eauto. }
  assert (Himport : subnode n (Import [m]) → quiet resolve (shield v) n).
  { intros H. inversion H as [|? c Hin Hc]; subst.
    - split; [|done]. cbn [check_import flat_map].
      by rewrite bool_decide_eq_false_2.
    - apply list_elem_of_singleton in Hin as ->.
      inversion Hc as [|? ? Hin]; subst; [done|]. by apply elem_of_nil in Hin. }
  inversion Hn as [|? c Hin Hc]; subst; [done|].
  cbn [iter_child_nodes] in Hin.
  apply elem_of_cons in Hin as [->|Hin]; [auto|].
  apply list_elem_of_singleton in Hin as ->.
  inversion Hc as [|? c Hin Hc']; subst; [done|].
  apply list_elem_of_singleton in Hin as ->. auto.
Qed.

End Findings.

Lemma builtin_call_found_anywhere_witness :
  ∃ viol v',
    validate_python_code Scenario.resolve (λ _, Ok Cases.nested_eval_tree)
      Scenario.validator_tmp "print(len(eval(x)))" = Ok ((false, viol), v')
    ∧ "Dangerous builtin call: eval()" ∈ viol.
Proof.
  eexists _, _. split; [reflexivity|].
  refine (proj2 (builtin_call_found_anywhere Scenario.resolve
                   (λ _, Ok Cases.nested_eval_tree) Scenario.validator_tmp
                   "print(len(eval(x)))" Cases.nested_eval_tree "eval"
                   [Name "x"] [] false _ _ eq_refl _ _ eq_refl)).
  - do 2 (eapply sub_below; [left|]).
    do 2 (eapply sub_below; [right; left|]). constructor.
  - by apply (bool_decide_unpack _).
Defined.

Lemma from_import_found_by_name_witness :
  ∃ viol v',
    validate_python_code Scenario.resolve (λ _, Ok Cases.mock_call_tree)
      Scenario.validator_tmp "from unittest.mock import call"
    = Ok ((false, viol), v')
    ∧ "Dangerous import: unittest.mock.call" ∈ viol.
Proof.
  eexists _, _. split; [reflexivity|].
  refine (proj2 (from_import_found_by_name Scenario.resolve
                   (λ _, Ok Cases.mock_call_tree) Scenario.validator_tmp
                   "from unittest.mock import call" Cases.mock_call_tree
                   "unittest.mock" "call" ["call"] false _ _
                   eq_refl _ eq_refl _ _ eq_refl)).
  - eapply sub_below; [left|]. constructor.
  - left.
  - right. right. left.
Defined.

Lemma whole_module_use_is_not_found_witness :
  ∃ v', validate_python_code Scenario.resolve Cases.parse_whole_module
          Scenario.validator_tmp "import subprocess; subprocess.run('rm -rf /')"
        = Ok ((true, []), v').
Proof.
  apply (whole_module_use_is_not_found Scenario.resolve Cases.parse_whole_module
           Scenario.validator_tmp _ "subprocess" "run" [CStr "rm -rf /"]).
  - by apply (bool_decide_unpack _).
  - by apply (bool_decide_unpack _).
  - reflexivity.
Defined.

(** ** The approval gate: refusals and the record *)

(** X11. A refusal is not remembered: when [require_approval] returns
    [False] the manager is as it was, one prompt was shown, and the same
    request made again is put to the operator again. *)
Theorem refusal_is_not_remembered (m : ApprovalManager) (w : console)
    (action : string) (context : option string)
    (callback : option (bool → result unit))
    (m' : ApprovalManager) (w' : console) :
  require_approval m w action context callback = (Ok false, m', w') →
  m' = m ∧ prompts w' = S (prompts w)
  ∧ ∀ context2 callback2,
      prompts (require_approval m' w' action context2 callback2).2
      = S (S (prompts w)).
Proof.
  unfold require_approval.
  destruct (auto_approve m) eqn:Hauto; [discriminate|].
  destruct (bool_decide _) eqn:Hin; [discriminate|].
  assert (prompts (ask w).2 = S (prompts w)) as Hask.
  { unfold ask. by destruct (replies w (prompts w)). }
  destruct (ask w) as [[approved|e] w1] eqn:Hw1; [|discriminate].
  intros Heq.
  assert (approved = false ∧ m' = m ∧ w' = w1) as (-> & -> & ->).
  { destruct approved; destruct callback as [cb|];
      try destruct (cb _); simplify_eq; done. }
  clear Heq. split; [done|]. split; [done|]. intros context2 callback2.
  rewrite Hauto, Hin.
  assert (prompts (ask w1).2 = S (prompts w1)) as Hask2.
  { unfold ask. by destruct (replies w1 (prompts w1)). }
  simpl in Hask. rewrite <- Hask, <- Hask2.
  destruct (ask w1) as [[approved2|e2] w2]; [|done].
  destruct callback2 as [cb|]; [destruct (cb approved2)|]; done.
Qed.

Lemma refusal_is_not_remembered_witness :
  ∃ m' w',
    require_approval (Approval.init false) Cases.console_no "reboot now"
      None None = (Ok false, m', w')
    ∧ m' = Approval.init false
    ∧ prompts (require_approval m' w' "reboot now" None None).2 = 2.
Proof.
  eexists _, _. split; [reflexivity|].
  destruct (refusal_is_not_remembered (Approval.init false) Cases.console_no
              "reboot now" None None _ _ eq_refl) as (Hm & _ & Hagain).
  split; [exact Hm|exact (Hagain None None)].
Defined.

(** What holds of a manager between calls. *)
Lemma record_kept (m : ApprovalManager) (w : console)
    action context callback r m' w' :
  approved_actions m = list_to_set (entry_action <$> approval_history m) →
  NoDup (entry_action <$> approval_history m) →
  Forall (λ e, entry_approved e = true ∧ entry_timestamp e = None)
    (approval_history m) →
  require_approval m w action context callback = (r, m', w') →
  approved_actions m' = list_to_set (entry_action <$> approval_history m')
  ∧ NoDup (entry_action <$> approval_history m')
  ∧ Forall (λ e, entry_approved e = true ∧ entry_timestamp e = None)
      (approval_history m')
  ∧ auto_approve m' = auto_approve m
  ∧ (auto_approve m = true → m' = m ∧ w' = w).
Proof.
  intros Hset Hnodup Hall. unfold require_approval.
  destruct (auto_approve m) eqn:Hauto; [by intros [= <- <- <-]|].
  destruct (bool_decide _) eqn:Hin; [by intros [= <- <- <-]|].
  apply bool_decide_eq_false in Hin.
  destruct (ask w) as [[approved|e] w1]; [|by intros [= <- <- <-]].
  assert (∀ m1 : ApprovalManager,
            m1 = (if approved then
                    {| auto_approve := false;
                       approved_actions := {[ action ]} ∪ approved_actions m;
                       approval_history :=
                         approval_history m
                         ++ [{| entry_action := action;
                                entry_context := context;
                                entry_timestamp := None;
                                entry_approved := true |}] |}
                  else m) →
            approved_actions m1
            = list_to_set (entry_action <$> approval_history m1)
            ∧ NoDup (entry_action <$> approval_history m1)
            ∧ Forall (λ e, entry_approved e = true ∧ entry_timestamp e = None)
                (approval_history m1)
            ∧ auto_approve m1 = false) as Hm.
  { intros m1 ->. destruct approved; simpl; [|done].
    rewrite fmap_app, list_to_set_app_L. simpl. rewrite Hset.
    split; [by rewrite (right_id_L ∅ (∪)), (comm_L (∪))|].
    split; [|split; [|done]].
    - apply NoDup_app. split; [done|]. split; [|apply NoDup_singleton].
      intros a Ha ->%list_elem_of_singleton. apply Hin. rewrite Hset.
      by apply elem_of_list_to_set.
    - apply Forall_app. split; [done|]. by repeat constructor. }
  destruct callback as [cb|]; [destruct (cb approved)|];
    intros [= <- <- <-];
    (destruct (Hm _ eq_refl) as (? & ? & ? & ?);
     by repeat split).
Qed.

(** X12. Of a manager made by [__init__], after any requests: the
    approved actions are exactly the actions of the history, no action
    stands twice in the history, every entry of it is an approval and
    carries no time (the time stamp asked for is never written); and in
    auto-approve mode the history stays empty and no prompt is shown. *)
Theorem approval_record_is_consistent (auto : bool) (w : console)
    (rs : list request) :
  let m := (session (Approval.init auto) w rs).1 in
  approved_actions m = list_to_set (entry_action <$> approval_history m)
  ∧ NoDup (entry_action <$> approval_history m)
  ∧ Forall (λ e, entry_approved e = true ∧ entry_timestamp e = None)
      (approval_history m)
  ∧ (auto = true →
     session (Approval.init auto) w rs = (Approval.init auto, w)).
Proof.
  assert (∀ m w,
    approved_actions m = list_to_set (entry_action <$> approval_history m) →
    NoDup (entry_action <$> approval_history m) →
    Forall (λ e, entry_approved e = true ∧ entry_timestamp e = None)
      (approval_history m) →
    let m' := (session m w rs).1 in
    approved_actions m' = list_to_set (entry_action <$> approval_history m')
    ∧ NoDup (entry_action <$> approval_history m')
    ∧ Forall (λ e, entry_approved e = true ∧ entry_timestamp e = None)
        (approval_history m')
    ∧ (auto_approve m = true → session m w rs = (m, w))) as Hgen.
  { induction rs as [|r rs IH]; intros m w0 Hset Hnodup Hall; simpl; [done|].
    destruct (require_approval m w0 _ _ _) as [[res m1] w1] eqn:Hreq.
    destruct (record_kept _ _ _ _ _ _ _ _ Hset Hnodup Hall Hreq)
      as (Hset1 & Hnodup1 & Hall1 & Hauto1 & Hsame).
    destruct (IH m1 w1 Hset1 Hnodup1 Hall1) as (? & ? & ? & Hrest).
    repeat split; try done.
    intros Hauto. destruct (Hsame Hauto) as [-> ->]. by apply Hrest. }
  simpl. destruct (Hgen (Approval.init auto) w) as (? & ? & ? & Hauto);
    [done|constructor|constructor|].
  by repeat split.
Qed.

(** X13. [is_critical] looks at the lower-cased text only, and a critical
    command stays critical inside any longer text -- in a pipeline, after
    a path, within a word. *)
Theorem is_critical_in_context (command : string) :
  (∀ other, PyStr.lower other = PyStr.lower command →
            is_critical other = is_critical command)
  ∧ (is_critical command = true →
     ∀ pre post, is_critical (pre +:+ command +:+ post) = true).
Proof.
  split.
  - intros other Hsame. unfold is_critical. by rewrite Hsame.
  - unfold is_critical. rewrite existsb_elements.
    intros (k & Hk & Hc) pre post. apply existsb_elements.
    exists k. split; [done|].
    apply contains_spec in Hc as (a & b & Hc). apply contains_spec.
    exists (PyStr.lower pre +:+ a), (b +:+ PyStr.lower post).
    by rewrite !lower_app, Hc, !sapp_assoc.
Qed.

Lemma is_critical_in_context_witness :
  is_critical "ls | xargs RM" = true.
Proof.
  destruct (is_critical_in_context "rm") as [_ Hcontext].
  destruct (is_critical_in_context "ls | xargs rm") as [Hcase _].
  rewrite (Hcase "ls | xargs RM" eq_refl).
  exact (Hcontext eq_refl "ls | xargs " "").
Defined.

(** ** The corrected arguments *)

Import Orchestrator Supervisor.

(** X14. For a "permission denied" error on [execute_command] the
    proposed arguments always carry a command that begins with "sudo" --
    "sudo " alone when there was no command -- and leave every other
    argument alone; proposing again changes nothing more; and for every
    other tool the arguments come back as they are. *)
Theorem permission_denied_fix (tool_args : gmap string string) (error : string) :
  PyStr.contains "permission denied" (PyStr.lower error) = true →
  let fixed := propose_error_fix "execute_command" tool_args error in
  (∃ cmd, fixed !! "command" = Some cmd ∧ PyStr.startswith cmd "sudo" = true)
  ∧ (∀ key, key ≠ "command" → fixed !! key = tool_args !! key)
  ∧ propose_error_fix "execute_command" fixed error = fixed
  ∧ (∀ tool_name, tool_name ≠ "execute_command" →
       propose_error_fix tool_name tool_args error = tool_args).
Proof.
  intros Hperm. unfold propose_error_fix. rewrite Hperm.
  cbn [String.eqb Ascii.eqb Bool.eqb].
  destruct (PyStr.startswith (default "" (tool_args !! "command")) "sudo")
    eqn:Hsudo; cbn [negb].
  - split; [|split; [done|split]].
    + destruct (tool_args !! "command") as [cmd|] eqn:Hcmd; [eauto|done].
    + by rewrite Hsudo.
    + intros tool_name Hne. by apply String.eqb_neq in Hne as ->.
  - split; [|split; [|split]].
    + eexists. rewrite lookup_insert_eq. split; [done|done].
    + intros key Hne. by rewrite lookup_insert_ne.
    + by rewrite lookup_insert_eq.
    + intros tool_name Hne. by apply String.eqb_neq in Hne as ->.
Qed.

Lemma permission_denied_fix_witness :
  propose_error_fix "execute_command" Scenario.python_script
    "bash: Permission denied" !! "command" = Some "sudo python script.py".
Proof.
  destruct (permission_denied_fix Scenario.python_script
              "bash: Permission denied" eq_refl) as [_ _].
  reflexivity.
Defined.

(** ** Retries that return *)

Lemma calls_learn o w l : calls (learn o w l) = calls w.
Proof. unfold learn. by destruct (memory o). Qed.

Lemma execute_tool_returns_failed (o : PyOSOrchestrator) (name : string)
    (f : tool) (depth : nat) (w : world) (a : gmap string string)
    (r : ToolResult) :
  tools o !! name = Some f →
  f a (length (calls w)) = Returns r →
  success r = false →
  execute_tool (S depth) o w name a = (Ok r, called w name a).
Proof.
  intros Htool Hf Hr. cbn [execute_tool]. by rewrite Htool, Hf, Hr.
Qed.

Lemma execute_tool_returns_sliced (o : PyOSOrchestrator) (name : string)
    (f : tool) (depth : nat) (w : world) (a : gmap string string)
    (r : ToolResult) (text : string) :
  tools o !! name = Some f →
  f a (length (calls w)) = Returns r →
  success r = true →
  slice100 (output r) = Ok text →
  execute_tool (S depth) o w name a
  = (Ok r, learn o (called w name a) (LearnedSuccess (Named name) text)).
Proof.
  intros Htool Hf Hr Hslice. cbn [execute_tool].
  rewrite Htool, Hf, Hr, Hslice. unfold learn. by destruct (memory o).
Qed.

Lemma analyze_counts (o : PyOSOrchestrator) (name : string) (f : tool)
    (e' : string) (base : nat) :
  tools o !! name = Some f →
  (∀ a n, base < n → f a n = Returns (failure e')) →
  PyStr.truthy e' = true →
  ∀ k depth w a err attempt,
    attempt + k = S (max_retries o) → base < length (calls w) → k < depth →
    ∃ w',
      analyze_and_retry_tool depth o w name a err attempt
      = (Ok (failure ("Falha permanente apos " +:+ str_nat (max_retries o)
                      +:+ " tentativas: "
                      +:+ match k with O => err | S _ => e' end)), w')
      ∧ length (calls w') = length (calls w) + k.
Proof.
  intros Htool Hlater He k.
  induction k as [|k IH]; intros depth w a err attempt Hk Hbase Hdepth.
  - destruct depth as [|depth]; [lia|]. cbn [analyze_and_retry_tool].
    assert ((max_retries o <? attempt) = true) as -> by (apply Nat.ltb_lt; lia).
    exists w. split; [done|lia].
  - destruct depth as [|depth]; [lia|]. cbn [analyze_and_retry_tool].
    assert ((max_retries o <? attempt) = false) as -> by (apply Nat.ltb_ge; lia).
    destruct depth as [|depth]; [lia|].
    rewrite (execute_tool_returns_failed o name f _ _ _ (failure e') Htool
               (Hlater _ _ Hbase) eq_refl).
    cbn [success failure plain_result error]. rewrite He.
    destruct (IH (S depth)
                (learn o (called w name (propose_error_fix name a err))
                   (LearnedError
                      (Described name (propose_error_fix name a err))
                      (Some e')))
                (propose_error_fix name a err) e' (S attempt))
      as (w' & Hrun & Hlen); [lia| |lia|].
    { rewrite calls_learn. unfold called. simpl. rewrite length_app. lia. }
    exists w'. split.
    + rewrite Hrun. by destruct k.
    + rewrite Hlen, calls_learn. unfold called. simpl.
      rewrite length_app. simpl. lia.
Qed.

(** X15. The retry bound, where it holds.  When only the first call of
    a tool raises and every later call returns a failed result, the tool
    is called [max_retries + 1] times in all, and the answer is the
    failed result that reports the retries as used up, with the last
    error in it. *)
Theorem retries_bounded_when_retries_return (o : PyOSOrchestrator)
    (name : string) (f : tool) (w : world) (args : gmap string string)
    (msg e' : string) (depth : nat) :
  tools o !! name = Some f →
  f args (length (calls w)) = Throws msg →
  (∀ a n, length (calls w) < n → f a n = Returns (failure e')) →
  PyStr.truthy e' = true →
  max_retries o + 2 ≤ depth →
  ∃ w',
    execute_tool depth o w name args
    = (Ok (failure ("Falha permanente apos " +:+ str_nat (max_retries o)
                    +:+ " tentativas: "
                    +:+ match max_retries o with O => msg | S _ => e' end)),
       w')
    ∧ length (calls w') = length (calls w) + 1 + max_retries o.
Proof.
  intros Htool Hfirst Hlater He Hdepth.
  destruct depth as [|depth]; [lia|]. cbn [execute_tool].
  rewrite Htool, Hfirst.
  destruct (analyze_counts o name f e' (length (calls w)) Htool Hlater He
              (max_retries o) depth (called w name args) args msg 1)
    as (w' & Hrun & Hlen); [lia| |lia|].
  { unfold called. simpl. rewrite length_app. simpl. lia. }
  exists w'. split; [done|].
  rewrite Hlen. unfold called. simpl. rewrite length_app. simpl. lia.
Qed.

Lemma retries_bounded_when_retries_return_witness :
  ∃ w',
    execute_tool 4 Scenario.orchestrator Scenario.quiet "raises_once" ∅
    = (Ok (failure "Falha permanente apos 2 tentativas: still failing"), w')
    ∧ length (calls w') = 3.
Proof.
  apply (retries_bounded_when_retries_return Scenario.orchestrator
           "raises_once" Scenario.raises_once Scenario.quiet ∅
           "boom" "still failing" 4).
  - reflexivity.
  - reflexivity.
  - intros a [|n] Hn; [simpl in Hn; lia|reflexivity].
  - reflexivity.
  - simpl. lia.
Defined.

(** X16. A retry that succeeds is handed back as the result, after two
    calls of the tool -- and with the memory on it is learned twice, once
    by [_execute_tool] under the tool's name and once by
    [_analyze_and_retry_tool] under the description of the corrected
    call; both times with the first hundred characters of the output,
    which for that has to be a value that can be sliced. *)
Theorem recovered_retry_is_learned_twice (o : PyOSOrchestrator)
    (name : string) (f : tool) (w : world) (args : gmap string string)
    (msg : string) (r : ToolResult) (text : string) (depth : nat) :
  tools o !! name = Some f →
  f args (length (calls w)) = Throws msg →
  f (propose_error_fix name args msg) (S (length (calls w))) = Returns r →
  success r = true → slice100 (output r) = Ok text →
  memory o = true → 1 ≤ max_retries o → 3 ≤ depth →
  execute_tool depth o w name args
  = (Ok r,
     {| calls := calls w ++ [(name, args);
                             (name, propose_error_fix name args msg)];
        lessons :=
          lessons w
          ++ [LearnedSuccess (Named name) text;
              LearnedSuccess
                (Described name (propose_error_fix name args msg)) text] |}).
Proof.
  intros Htool Hfirst Hsecond Hok Hslice Hmem Hretries Hdepth.
  assert (length (calls (called w name args)) = S (length (calls w))) as Hlen.
  { unfold called. simpl. rewrite length_app. simpl. lia. }
  rewrite <- Hlen in Hsecond.
  destruct depth as [|depth]; [lia|]. cbn [execute_tool].
  rewrite Htool, Hfirst.
  destruct depth as [|depth]; [lia|]. cbn [analyze_and_retry_tool].
  assert ((max_retries o <? 1) = false) as -> by (apply Nat.ltb_ge; lia).
  destruct depth as [|depth]; [lia|].
  rewrite (execute_tool_returns_sliced o name f _ _ _ r text Htool Hsecond
             Hok Hslice), Hok, Hmem, Hslice.
  unfold learn, called. rewrite Hmem. simpl.
  by rewrite <- !app_assoc.
Qed.

Lemma recovered_retry_is_learned_twice_witness :
  (execute_tool 5 Cases.orchestrator_memory Scenario.quiet "recovers" ∅).1
  = Ok (plain_result true (Text "ok") None)
  ∧ length (lessons (execute_tool 5 Cases.orchestrator_memory Scenario.quiet
                       "recovers" ∅).2) = 2.
Proof.
  rewrite (recovered_retry_is_learned_twice Cases.orchestrator_memory
             "recovers" Cases.recovers Scenario.quiet ∅ "Permission denied"
             (plain_result true (Text "ok") None) "ok" 5);
    try reflexivity; try (simpl; lia).
  split; reflexivity.
Defined.

(** ** Registered tools and the checks of the wrapper *)

Lemma wrap_is_wrapper resolve (o : PyOSOrchestrator) (name : string)
    (func : tool) (kwargs : gmap string string) (n : nat) :
  tools o !! name ≠ None →
  wrap_tool_with_security func kwargs n
  = Returns (wrapper resolve o name (λ _, func) [] kwargs n).
Proof.
  intros Hreg. unfold wrap_tool_with_security, wrapper.
  rewrite bool_decide_eq_false_2 by done. simpl.
  by destruct (func kwargs n).
Qed.

(** X17. A function that went through [register_tool] and returns or
    raises an [Exception] is called once by [_execute_tool] and its result
    handed back: what it raises has become a failed result, so the retries
    are not entered -- unless the result is a success whose output cannot
    be sliced and the memory is on.  Then the [TypeError] of
    [result.output[:100]] stands inside the [try], and the successful
    call is retried as if it had failed. *)
Theorem registered_tool_is_called_once (o : PyOSOrchestrator) (name : string)
    (func : tool) (depth : nat) (w : world) (args : gmap string string) :
  ((∀ r, func args (length (calls w)) = Returns r →
         success r = true → memory o = true →
         ∃ text, slice100 (output r) = Ok text) →
   ∃ r lesson,
     execute_tool (S depth) (register_tool o name func) w name args
     = (Ok r, {| calls := calls w ++ [(name, args)];
                 lessons := lessons w ++ lesson |})
     ∧ r = match func args (length (calls w)) with
           | Returns result => result
           | ReturnsValue shown => plain_result true (Text shown) None
           | Throws e => failure e
           end
     ∧ (success r = false → lesson = []))
  ∧ (∀ r e, func args (length (calls w)) = Returns r →
            success r = true → memory o = true →
            slice100 (output r) = Raise e →
            execute_tool (S depth) (register_tool o name func) w name args
            = analyze_and_retry_tool depth (register_tool o name func)
                (called w name args) name args (str_exn e) 1).
Proof.
  cbn [execute_tool register_tool tools]. rewrite lookup_insert_eq.
  unfold wrap_tool_with_security. split.
  - intros Hslice.
    destruct (func args (length (calls w))) as [r|shown|e].
    + destruct (success r) eqn:Hr; cbn [andb].
      * unfold learn, called. cbn [memory register_tool calls lessons].
        destruct (memory o).
        -- destruct (Hslice r) as [text ->]; try done.
           exists r, [LearnedSuccess (Named name) text].
           split; [done|]. split; [done|congruence].
        -- exists r, []. rewrite app_nil_r. split; [done|]. by split.
      * exists r, []. rewrite app_nil_r. by repeat split.
    + cbn [success plain_result andb output slice100]. unfold learn, called.
      cbn [memory register_tool calls lessons].
      destruct (memory o).
      * eexists _, [_]. split; [done|]. by split.
      * eexists _, []. rewrite app_nil_r. split; [done|]. by split.
    + eexists _, []. rewrite app_nil_r. by repeat split.
  - intros r e -> Hr Hmem Hslice.
    cbn [memory register_tool]. by rewrite Hr, Hmem, Hslice.
Qed.

Section Wrapper.

Variable resolve : string → result Fs.path.

(** X18. The command check of the wrapper looks at positional arguments
    only.  With security on, a refused command given by position is
    answered with the failed result and the function is not run; a
    command of white space only is answered with the failed result of
    the [IndexError]; but the same refused command given by keyword, as
    [_execute_tool] gives it, reaches the function unchecked. *)
Theorem command_check_is_positional (o : PyOSOrchestrator) (func : raw_tool)
    (command : string) (kwargs : gmap string string) (n : nat) :
  tools o !! "execute_command" ≠ None →
  security_enabled o = true →
  (is_command_allowed (shield o) command = Ok false →
   wrapper resolve o "execute_command" func [command] kwargs n
   = failure ("Comando nao permitido: " +:+ command))
  ∧ (PyStr.isspace command = true →
     wrapper resolve o "execute_command" func [command] kwargs n
     = failure "list index out of range")
  ∧ wrapper resolve o "execute_command" func []
      (<["command" := command]> kwargs) n
    = match func [] (<["command" := command]> kwargs) n with
      | Returns result => result
      | ReturnsValue shown => plain_result true (Text shown) None
      | Throws e => failure e
      end.
Proof.
  intros Hreg Hsec. unfold wrapper.
  rewrite bool_decide_eq_false_2 by done.
  split; [|split; [|done]].
  - intros Hno. unfold check_arguments, validate_command.
    cbn [String.eqb Ascii.eqb Bool.eqb]. by rewrite Hsec, Hno.
  - intros [Hne Hall]%isspace_spec. unfold check_arguments, validate_command.
    cbn [String.eqb Ascii.eqb Bool.eqb]. rewrite Hsec. cbn [andb].
    assert (is_command_allowed (shield o) command
            = Raise (IndexError "list index out of range")) as ->; [|done].
    unfold is_command_allowed. destruct command; [done|].
    cbn [PyStr.truthy negb]. by rewrite split_strip_all_space.
Qed.

End Wrapper.

Lemma command_check_is_positional_witness :
  wrapper Scenario.resolve Scenario.orchestrator "execute_command"
    Cases.echo_command ["rm -rf /"] ∅ 0
  = failure "Comando nao permitido: rm -rf /"
  ∧ wrapper Scenario.resolve Scenario.orchestrator "execute_command"
      Cases.echo_command [] {[ "command" := "rm -rf /" ]} 0
    = plain_result true (Text "ran rm -rf /") None.
Proof.
  destruct (command_check_is_positional Scenario.resolve Scenario.orchestrator
              Cases.echo_command "rm -rf /" ∅ 0) as (Hpos & _ & Hkey);
    [done|done|].
  split; [by apply Hpos|exact Hkey].
Defined.

(** ** What a run of the loop can and cannot log *)

(** A result that carries one of the two attributes is an object a tool
    function returned: the results [_execute_tool] and
    [_analyze_and_retry_tool] build themselves carry neither. *)
Lemma attributes_come_from_tool (o : PyOSOrchestrator) (name : string)
    (depth : nat) :
  (∀ w args r w',
     execute_tool depth o w name args = (Ok r, w') → has_attribute r →
     ∃ f a n, tools o !! name = Some f ∧ f a n = Returns r)
  ∧ (∀ w args err attempt r w',
       analyze_and_retry_tool depth o w name args err attempt = (Ok r, w') →
       has_attribute r →
       ∃ f a n, tools o !! name = Some f ∧ f a n = Returns r).
Proof.
  assert (∀ ok out err, ¬ has_attribute (plain_result ok out err)) as Hplain.
  { intros ok out err [H|H]; by apply H. }
  induction depth as [|depth [IHe IHa]]; [by split|]. split.
  - intros w args r w'. cbn [execute_tool].
    destruct (tools o !! name) as [f|] eqn:Htool.
    2: { intros [= <- _] Hattr. by apply Hplain in Hattr. }
    destruct (f args (length (calls w))) as [r0|shown|e] eqn:Hf.
    + destruct (success r0 && memory o).
      * destruct (slice100 (output r0)) as [text|e].
        -- intros [= <- _] _. eauto.
        -- apply IHa.
      * intros [= <- _] _. eauto.
    + intros [= <- _] Hattr. by apply Hplain in Hattr.
    + apply IHa.
  - intros w args err attempt r w'. cbn [analyze_and_retry_tool].
    destruct (max_retries o <? attempt).
    { intros [= <- _] Hattr. by apply Hplain in Hattr. }
    destruct (execute_tool depth o w name _) as [[r1|e] w1] eqn:Hrun;
      [|discriminate].
    destruct (success r1).
    + destruct (memory o).
      * destruct (slice100 (output r1)) as [text|e]; [|discriminate].
        intros [= <- _]. by apply (IHe _ _ _ _ Hrun).
      * intros [= <- _]. by apply (IHe _ _ _ _ Hrun).
    + apply IHa.
Qed.

Lemma log_tool_result_raises o name r :
  attr_execution_time r = None ∨ attr_security_validated r = None →
  ∃ e, log_tool_result o name r = Raise e.
Proof.
  intros Hnone.
  destruct (log_tool_result o name r) as [o1|e] eqn:Hlog; [|eauto].
  apply log_tool_result_ok in Hlog as (? & ? & ? & H1 & H2 & _).
  destruct Hnone; congruence.
Qed.


Section Runs.

Variable call_model : PyOSOrchestrator → string → list event → result decision.
Variable depth : nat.

(** The step that runs a tool, once the tool has answered. *)
Lemma tool_step o w objective messages response name :
  call_model (next_iteration o) objective messages = Ok response →
  done response = false →
  chosen_tool response = Some name →
  PyStr.truthy name = true → tools o !! name ≠ None →
  iterate call_model depth o w objective messages
  = match execute_tool depth (next_iteration o) w name (chosen_args response)
    with
    | (Raise e, w') => on_error (next_iteration o) w' objective e
    | (Ok tool_result, w') =>
        match log_tool_result (next_iteration o) name tool_result with
        | Raise e => on_error (next_iteration o) w' objective e
        | Ok o' =>
            (Continue
               (messages
                ++ [{| event_tool := name;
                       event_result := output tool_result;
                       event_success := success tool_result |}]),
             o', w')
        end
    end.
Proof.
  intros Hmodel Hdone Htool Hname Hreg. unfold iterate.
  rewrite Hmodel, Hdone, Htool, Hname. cbn [negb orb default].
  by rewrite bool_decide_eq_false_2 by done.
Qed.


End Runs.


(** X20. With the body [_call_model] has in the source, the model asks
    for the tool "take_screenshot" twice and declares the objective done
    at the third iteration.  When no tool of that name is registered, the
    run reports success exactly when at least three iterations are
    allowed, and no tool is called.  When one is registered whose results
    lack [execution_time] or [security_validated], the run never reports
    success: it ends in the error of its first iteration. *)
Theorem placeholder_run_succeeds_iff (depth : nat) (o : PyOSOrchestrator)
    (w : world) (objective : string) :
  (tools o !! "take_screenshot" = None →
   (report_success
      (execute_objective call_model_placeholder depth o w objective).1.1 = true
    ↔ 3 ≤ max_iterations o)
   ∧ (execute_objective call_model_placeholder depth o w objective).2 = w)
  ∧ (∀ f, tools o !! "take_screenshot" = Some f →
          (∀ a n r, f a n = Returns r →
                    attr_execution_time r = None
                    ∨ attr_security_validated r = None) →
          report_success
            (execute_objective call_model_placeholder depth o w objective).1.1
          = false).
Proof.
  unfold execute_objective. cbn [begin_objective max_iterations iteration_count].
  rewrite Nat.sub_0_r. split.
  - intros Htool.
    assert (∀ o1 : PyOSOrchestrator, tools o1 = tools o →
              bool_decide (tools o1 !! "take_screenshot" = None) = true)
      as Hnone.
    { intros o1 ->. by apply bool_decide_eq_true. }
    destruct (max_iterations o) as [|[|[|n]]];
      unfold loop, iterate, call_model_placeholder;
      cbn [next_iteration begin_objective log_action iteration_count tools
           Nat.leb done chosen_tool PyStr.truthy negb orb];
      rewrite ?Hnone by done;
      cbn [next_iteration begin_objective log_action iteration_count tools
           Nat.leb done chosen_tool PyStr.truthy negb orb fst snd
           report_success];
      rewrite ?Hnone by done;
      cbn [next_iteration begin_objective log_action iteration_count tools
           Nat.leb done chosen_tool PyStr.truthy negb orb fst snd
           report_success];
      (split; [|done]); (split; [intros H|intros H]; try done; try lia).
  - intros f Htool Hlacks.
    destruct (max_iterations o) as [|n]; [done|]. cbn [loop].
    rewrite (tool_step call_model_placeholder depth (begin_objective o) w
               objective []
               {| done := false;
                  message := Some "Objetivo processado com sucesso";
                  reasoning := "Simulacao de resposta do modelo";
                  chosen_tool := Some "take_screenshot";
                  chosen_args := ∅ |} "take_screenshot"); try done.
    2: { cbn [tools begin_objective]. by rewrite Htool. }
    cbn [chosen_args].
    destruct (execute_tool depth _ w "take_screenshot" ∅)
      as [[r|e] w'] eqn:Hrun; [|done].
    assert (attr_execution_time r = None ∨ attr_security_validated r = None)
      as Hnone.
    { destruct (attr_execution_time r) as [seconds|] eqn:Htime; [|by left].
      destruct (proj1 (attributes_come_from_tool _ _ _) _ _ _ _ Hrun)
        as (f' & a & n' & Hf' & Hret).
      { left. by rewrite Htime. }
      cbn [tools next_iteration begin_objective] in Hf'.
      rewrite Htool in Hf'. injection Hf' as <-.
      rewrite <- Htime. by apply (Hlacks a n'). }
    by destruct (log_tool_result_raises
                   (next_iteration (begin_objective o)) "take_screenshot" r
                   Hnone) as [e ->].
Qed.

Lemma placeholder_run_succeeds_iff_witness :
  report_success
    (execute_objective call_model_placeholder 5 Scenario.orchestrator
       Scenario.quiet "look at the screen").1.1 = true.
Proof.
  destruct (proj1 (placeholder_run_succeeds_iff 5 Scenario.orchestrator
                     Scenario.quiet "look at the screen") eq_refl)
    as [Hiff _].
  apply Hiff. simpl. lia.
Defined.

(** ** The allowed paths of the configuration *)

Section ConfigFacts.

Implicit Types s t : string.

Lemma lstrip_head s :
  PyStr.lstrip s = ""
  ∨ ∃ c t, PyStr.lstrip s = String c t ∧ PyStr.is_space c = false.
Proof.
  induction s as [|c s IH]; [by left|]. simpl.
  destruct (PyStr.is_space c) eqn:Hc; [done|]. right. eauto.
Qed.

Lemma rstrip_cons c s :
  PyStr.rstrip (String c s)
  = match PyStr.rstrip s with
    | "" => if PyStr.is_space c then "" else String c ""
    | r => String c r
    end.
Proof. done. Qed.

Lemma rstrip_idem s : PyStr.rstrip (PyStr.rstrip s) = PyStr.rstrip s.
Proof.
  induction s as [|c s IH]; [done|]. cbn [PyStr.rstrip].
  destruct (PyStr.rstrip s) as [|d r] eqn:Hr.
  - destruct (PyStr.is_space c) eqn:Hc; [done|].
    rewrite rstrip_cons. cbn [PyStr.rstrip]. by rewrite Hc.
  - by rewrite (rstrip_cons c (String d r)), IH.
Qed.

Lemma rstrip_head c t :
  PyStr.is_space c = false → ∃ r, PyStr.rstrip (String c t) = String c r.
Proof.
  intros Hc. cbn [PyStr.rstrip]. rewrite Hc. destruct (PyStr.rstrip t); eauto.
Qed.

(** Stripping twice is stripping once. *)
Lemma strip_idem s : PyStr.strip (PyStr.strip s) = PyStr.strip s.
Proof.
  unfold PyStr.strip.
  destruct (lstrip_head s) as [->|(c & t & -> & Hc)]; [done|].
  destruct (rstrip_head c t Hc) as [r Hr]. rewrite Hr.
  cbn [PyStr.lstrip]. rewrite Hc, <- Hr. apply rstrip_idem.
Qed.

Lemma split_on_go_free (sep : ascii) cur a :
  PyStr.contains (String sep "") a = false →
  PyStr.split_on_go sep cur a = [cur +:+ a].
Proof.
  revert cur. induction a as [|c a IH]; intros cur; simpl.
  - by rewrite sapp_nil_r.
  - destruct (ascii_dec sep c) as [->|Hne]; [by destruct a|].
    intros Ha. assert (Ascii.eqb c sep = false) as ->.
    { apply Ascii.eqb_neq. congruence. }
    rewrite IH, sapp_assoc; [done|]. by destruct a.
Qed.

Lemma split_on_go_sep (sep : ascii) cur a b :
  PyStr.contains (String sep "") a = false →
  PyStr.split_on_go sep cur (a +:+ String sep b)
  = (cur +:+ a) :: PyStr.split_on_go sep "" b.
Proof.
  revert cur. induction a as [|c a IH]; intros cur.
  - intros _. rewrite sapp_nil_l, sapp_nil_r. simpl.
    by rewrite Ascii.eqb_refl.
  - rewrite sapp_cons. simpl.
    destruct (ascii_dec sep c) as [->|Hne]; [by destruct a|].
    intros Ha. assert (Ascii.eqb c sep = false) as ->.
    { apply Ascii.eqb_neq. congruence. }
    rewrite IH, sapp_assoc; [done|]. by destruct a.
Qed.

(** The test for the empty value changes nothing. *)
Lemma get_allowed_paths_pieces v :
  Config.get_allowed_paths v
  = flat_map
      (λ p, if PyStr.truthy (PyStr.strip p) then [PyStr.strip p] else [])
      (PyStr.split_on ":" v).
Proof. by destruct v. Qed.

(** X21. Every path [get_allowed_paths] returns is not empty, has no
    white space at either end, and is the stripped form of one of the
    pieces between the colons of the setting. *)
Theorem get_allowed_paths_are_stripped (v p : string) :
  p ∈ Config.get_allowed_paths v →
  p ≠ "" ∧ PyStr.strip p = p
  ∧ ∃ piece, piece ∈ PyStr.split_on ":" v ∧ p = PyStr.strip piece.
Proof.
  rewrite get_allowed_paths_pieces.
  intros (piece & Hpiece & Hp)%list_elem_of_In%in_flat_map.
  destruct (PyStr.truthy (PyStr.strip piece)) eqn:Hne; [|done].
  destruct Hp as [<-|[]]. split; [by destruct (PyStr.strip piece)|].
  split; [apply strip_idem|]. exists piece. split; [|done].
  by apply list_elem_of_In.
Qed.

Lemma get_allowed_paths_are_stripped_witness :
  "/var/tmp" ∈ Config.get_allowed_paths " /tmp : /var/tmp : /home/user "
  ∧ PyStr.strip "/var/tmp" = "/var/tmp".
Proof.
  assert ("/var/tmp" ∈ Config.get_allowed_paths " /tmp : /var/tmp : /home/user ")
    as Hin by (apply (bool_decide_unpack _); by vm_compute).
  split; [exact Hin|].
  exact (proj1 (proj2 (get_allowed_paths_are_stripped _ _ Hin))).
Defined.

(** X22. The setting is read piece by piece: the paths of [a:b], for a
    first piece [a] without a colon, are the path of [a] -- if anything is
    left of it after stripping -- followed by the paths of [b]. *)
Theorem get_allowed_paths_by_piece (a b : string) :
  PyStr.contains ":" a = false →
  Config.get_allowed_paths (a +:+ ":" +:+ b)
  = Config.get_allowed_paths a ++ Config.get_allowed_paths b.
Proof.
  intros Ha. rewrite !get_allowed_paths_pieces. unfold PyStr.split_on.
  change (":" +:+ b) with (String ":"%char b).
  rewrite (split_on_go_sep ":" "" a b Ha), (split_on_go_free ":" "" a Ha).
  rewrite !sapp_nil_l. simpl. by rewrite app_nil_r.
Qed.

Lemma get_allowed_paths_by_piece_witness :
  Config.get_allowed_paths (" /tmp " +:+ ":" +:+ " : /var/tmp")
  = ["/tmp"; "/var/tmp"].
Proof.
  rewrite (get_allowed_paths_by_piece " /tmp " " : /var/tmp" eq_refl).
  reflexivity.
Defined.

End ConfigFacts.

(** ** Two more examples *)

Lemma approval_record_is_consistent_witness :
  session (Approval.init true) Scenario.console_yes
    [{| req_action := "reboot"; req_context := None; req_callback := None |}]
  = (Approval.init true, Scenario.console_yes).
Proof.
  exact (proj2 (proj2 (proj2
           (approval_record_is_consistent true Scenario.console_yes
              [{| req_action := "reboot"; req_context := None;
                  req_callback := None |}]))) eq_refl).
Defined.

Lemma registered_tool_is_called_once_witness :
  (∃ w',
     execute_tool 1
       (register_tool Scenario.orchestrator "flaky" Scenario.always_raises)
       Scenario.quiet "flaky" ∅
     = (Ok (failure "boom"), w')
     ∧ lessons w' = [])
  ∧ (execute_tool 9
       (register_tool Cases.orchestrator_memory "none" Cases.returns_none)
       Scenario.quiet "none" ∅).1
    = Raise RecursionError.
Proof.
  split.
  - destruct (proj1 (registered_tool_is_called_once Scenario.orchestrator
                       "flaky" Scenario.always_raises 0 Scenario.quiet ∅))
      as (r & lesson & Hrun & -> & Hlesson); [intros r [=]|].
    rewrite Hrun. eexists. split; [reflexivity|].
    simpl. by rewrite (Hlesson eq_refl).
  - rewrite (proj2 (registered_tool_is_called_once Cases.orchestrator_memory
                      "none" Cases.returns_none 8 Scenario.quiet ∅)
               (plain_result true (Object "NoneType" false "None") None)
               (TypeError "'NoneType' object is not subscriptable")
               eq_refl eq_refl eq_refl eq_refl).
    reflexivity.
Defined.
